(** * Crystal: the fragment / encrypt / replicate storage pipeline

    A shallow embedding of [pipeline.py] (class [AssemblyLine], class
    [KeyManagementSystem] and the module-level helpers) together with the
    store / retrieve sequence that [benchmarks/benchmark_test.py] drives.

    Conventions of the embedding:
    - Python [bytes] are [list byte]; Python [str] is [string] (every string
      the pipeline formats is ASCII, so [str.encode()] is the byte-for-byte
      image of the string);
    - fragment ids, replica ids, the replication factor and the fragment
      size are naturals (they come from [range] and [len]); data sizes given
      to the sizer are integers;
    - Python exceptions are the [Raise] branch of [result];
    - the node directories are a map from path to inode; a path may hold a
      regular file or a directory (for which [os.path.exists] is true and
      [open] raises);
    - [asyncio.gather] over tasks that touch distinct paths is run in list
      order; semaphores and the process pool only schedule and are omitted;
    - hashlib, zlib and the cryptography package are an interface
      ([CryptoLib]) whose laws ([CryptoLibLaws]) are assumed where a proof
      needs them; logging calls appear as the reason carried by a rejected
      replica. *)

From Stdlib Require Import ZArith Lia Strings.Byte Ascii String List.
From stdpp Require Import base tactics option list sorting gmap strings pretty.

Local Open Scope string_scope.
Local Open Scope list_scope.
Local Open Scope nat_scope.

(** ** Bytes and exceptions *)

Abbreviation bytes := (list byte).

#[global] Instance byte_eq_dec : EqDecision byte := Byte.byte_eq_dec.

Inductive exn : Set :=
  | ZeroDivisionError
  | ValueError
  | IndexError
  | FileNotFoundError
  | IsADirectoryError.

#[global] Instance exn_eq_dec : EqDecision exn.
Proof. solve_decision. Defined.

Inductive result (A : Type) : Type :=
  | Ok (a : A)
  | Raise (e : exn).
Arguments Ok {A} a.
Arguments Raise {A} e.

Definition bind {A B} (m : result A) (k : A → result B) : result B :=
  match m with
  | Ok a => k a
  | Raise e => Raise e
  end.

Notation "'let*' x ':=' m 'in' k" := (bind m (λ x, k))
  (at level 10, x pattern, m at level 100, k at level 200).

(** Awaiting a list of tasks: results in order, first exception wins. *)
Fixpoint gather {A B} (f : A → result B) (l : list A) : result (list B) :=
  match l with
  | [] => Ok []
  | a :: l' => let* b := f a in let* bs := gather f l' in Ok (b :: bs)
  end.

(** A [for] loop that threads a state and aborts on the first exception. *)
Fixpoint for_each {A S} (body : A → S → result S) (l : list A) (s : S)
  : result S :=
  match l with
  | [] => Ok s
  | a :: l' => let* s' := body a s in for_each body l' s'
  end.

(** ** Python built-ins used by the pipeline *)

Module Py.

(** [range(start, stop, step)] for a non-negative step; a zero step is a
    [ValueError]. *)
Definition range3 (start stop step : nat) : result (list nat) :=
  if decide (step = 0) then Raise ValueError
  else Ok ((λ k, start + k * step) <$>
             seq 0 ((stop - start + (step - 1)) `div` step)).

(** [range(start, stop)] *)
Definition range2 (start stop : nat) : list nat := seq start (stop - start).

(** The clamping of one slice bound against a sequence of length [n]. *)
Definition clamp (n i : Z) : Z :=
  if (i <? 0)%Z then Z.max 0 (n + i) else Z.min i n.

(** [l[lo:hi]], either bound possibly omitted, possibly negative. *)
Definition slice {A} (l : list A) (lo hi : option Z) : list A :=
  let n := Z.of_nat (length l) in
  let a := from_option (clamp n) 0%Z lo in
  let b := from_option (clamp n) n hi in
  take (Z.to_nat (b - a)) (drop (Z.to_nat a) l).

(** [a % b] on naturals; [b = 0] is a [ZeroDivisionError]. *)
Definition mod_ (a b : nat) : result nat :=
  if decide (b = 0) then Raise ZeroDivisionError else Ok (a `mod` b).

(** [a // b] on naturals. *)
Definition floordiv (a b : nat) : result nat :=
  if decide (b = 0) then Raise ZeroDivisionError else Ok (a `div` b).

(** [l[i]] *)
Definition getitem {A} (l : list A) (i : nat) : result A :=
  match l !! i with
  | Some a => Ok a
  | None => Raise IndexError
  end.

(** [str(n)] for a non-negative int. *)
Definition str_int (n : nat) : string := pretty n.

(** [s.encode()] on an ASCII string. *)
Definition encode (s : string) : bytes := list_byte_of_string s.

Definition hexdigit (n : N) : ascii :=
  match n with
  | 0 => "0" | 1 => "1" | 2 => "2" | 3 => "3" | 4 => "4" | 5 => "5"
  | 6 => "6" | 7 => "7" | 8 => "8" | 9 => "9" | 10 => "a" | 11 => "b"
  | 12 => "c" | 13 => "d" | 14 => "e" | _ => "f"
  end%char%N.

Definition squote : ascii := ascii_of_nat 39.
Definition dquote : ascii := ascii_of_nat 34.
Definition backslash : ascii := ascii_of_nat 92.

(** One byte of [bytes.__repr__] under the chosen quote character. *)
Definition repr_byte (quote : ascii) (b : byte) : string :=
  let c := ascii_of_byte b in
  let n := Byte.to_N b in
  if decide (c = quote ∨ c = backslash) then String backslash (String c "")
  else if decide (n = 9%N) then String backslash "t"
  else if decide (n = 10%N) then String backslash "n"
  else if decide (n = 13%N) then String backslash "r"
  else if decide (n < 32 ∨ 127 ≤ n)%N then
    String backslash (String "x"
      (String (hexdigit (N.shiftr (N.land n 240) 4))
         (String (hexdigit (N.land n 15)) "")))
  else String c "".

Definition mem_byte (c : ascii) (data : bytes) : bool :=
  bool_decide (byte_of_ascii c ∈ data).

(** [repr(data)] / [str(data)] of a bytes object: single quotes unless the
    data holds a single quote and no double quote. *)
Definition repr_bytes (data : bytes) : string :=
  let quote : ascii :=
    if mem_byte squote data && negb (mem_byte dquote data) then dquote
    else squote in
  "b" +:+ String quote
    (foldr (λ b acc, repr_byte quote b +:+ acc) (String quote "") data).

(** [sorted(l, key=key)]: a stable insertion sort on a natural key. *)
Fixpoint insert_by {A} (key : A → nat) (x : A) (l : list A) : list A :=
  match l with
  | [] => [x]
  | y :: l' => if decide (key x ≤ key y)%nat then x :: y :: l'
               else y :: insert_by key x l'
  end.

Definition sorted {A} (key : A → nat) (l : list A) : list A :=
  foldr (insert_by key) [] l.

End Py.

(** [os.path] on POSIX. *)
Module os_path.

Definition starts_with_sep (s : string) : bool :=
  match s with
  | String "/" _ => true
  | _ => false
  end.

Fixpoint ends_with_sep (s : string) : bool :=
  match s with
  | "" => false
  | String c "" => bool_decide (c = "/"%char)
  | String _ t => ends_with_sep t
  end.

(** [os.path.join(a, b)] *)
Definition join (a b : string) : string :=
  if starts_with_sep b then b
  else if bool_decide (a = "") || ends_with_sep a then a +:+ b
  else a +:+ "/" +:+ b.

End os_path.

(** ** The libraries the pipeline calls

    [hashlib.sha256(d).digest()], [zlib.compress] / [zlib.decompress]
    ([None] is [zlib.error]), [PBKDF2HMAC(SHA256, length, salt,
    iterations).derive(key_material)] and AES-GCM: encryption returns the
    ciphertext with the tag, decryption with a tag returns [None] where
    [finalize()] raises [InvalidTag]. *)
Class CryptoLib := {
  sha256 : bytes → bytes;
  zlib_compress : bytes → bytes;
  zlib_decompress : bytes → option bytes;
  pbkdf2_hmac_sha256 :
    ∀ (length : nat) (salt : bytes) (iterations : N) (key_material : bytes),
      bytes;
  aes_gcm_encrypt : ∀ (key nonce plaintext : bytes), bytes * bytes;
  aes_gcm_decrypt : ∀ (key nonce tag ciphertext : bytes), option bytes;
}.

(** What the proofs use of these libraries. *)
Class CryptoLibLaws (lib : CryptoLib) : Prop := {
  sha256_length : ∀ d, length (sha256 d) = 32;
  pbkdf2_length : ∀ n salt it km,
    length (pbkdf2_hmac_sha256 n salt it km) = n;
  gcm_tag_length : ∀ key nonce pt,
    length (aes_gcm_encrypt key nonce pt).2 = 16;
  gcm_decrypt_encrypt : ∀ key nonce pt,
    length key = 32 → length nonce = 12 →
    aes_gcm_decrypt key nonce (aes_gcm_encrypt key nonce pt).2
      (aes_gcm_encrypt key nonce pt).1 = Some pt;
  zlib_decompress_compress : ∀ d, zlib_decompress (zlib_compress d) = Some d;
}.

(** The argument checks of the cipher constructors of the cryptography
    package, each a [ValueError]: [algorithms.AES(key)] wants a key of 128,
    192 or 256 bits, [modes.GCM(iv, tag)] an iv of 8 to 128 bytes and, when
    a tag is given, at least 16 bytes of it. *)
Module cryptography.

Definition AES (key : bytes) : result bytes :=
  if bool_decide (length key ∈ [16; 24; 32]) then Ok key
  else Raise ValueError.

Definition GCM (initialization_vector : bytes) (tag : option bytes)
  : result (bytes * option bytes) :=
  if decide (length initialization_vector < 8
             ∨ 128 < length initialization_vector)
  then Raise ValueError
  else match tag with
       | Some t =>
           if decide (length t < 16) then Raise ValueError
           else Ok (initialization_vector, tag)
       | None => Ok (initialization_vector, tag)
       end.

End cryptography.

(** ** The file system under the node directories *)

Inductive inode : Type :=
  | Regular (content : bytes)
  | Directory.

Abbreviation filesystem := (gmap string inode).

Module fs.

(** [os.path.exists(path)] *)
Definition exists_ (disk : filesystem) (path : string) : bool :=
  bool_decide (is_Some (disk !! path)).

(** [open(path, "rb")] followed by [read()]. *)
Definition read (disk : filesystem) (path : string) : result bytes :=
  match disk !! path with
  | Some (Regular content) => Ok content
  | Some Directory => Raise IsADirectoryError
  | None => Raise FileNotFoundError
  end.

(** [open(path, "wb")] followed by [write(data)]: creates or truncates a
    regular file (the node directory itself is taken to exist). *)
Definition write (path : string) (data : bytes) (disk : filesystem)
  : result filesystem :=
  match disk !! path with
  | Some Directory => Raise IsADirectoryError
  | _ => Ok (<[path := Regular data]> disk)
  end.

End fs.

(** ** pipeline.py *)

Section pipeline.
Context {lib : CryptoLib}.

(** *** class KeyManagementSystem *)

Record KeyManagementSystem : Type := {
  dataset_checksum : bytes;
}.

(** The [seed] of [generate_key]: the f-string renders the two ids with
    [str] and the checksum, a bytes object, with its [repr]. *)
Definition key_seed (self : KeyManagementSystem)
    (fragment_id replica : nat) : bytes :=
  Py.encode (Py.str_int fragment_id +:+ ":"
             +:+ Py.repr_bytes self.(dataset_checksum) +:+ ":"
             +:+ Py.str_int replica).

(** [KeyManagementSystem.generate_key] *)
Definition generate_key (self : KeyManagementSystem)
    (fragment_id replica : nat) : bytes * bytes :=
  let seed := key_seed self fragment_id replica in
  let key :=
    pbkdf2_hmac_sha256 32 (Py.slice seed None (Some 16%Z)) 100000%N seed in
  let nonce := Py.slice seed None (Some 12%Z) in
  (key, nonce).

(** *** module-level helpers *)

Definition calculate_checksum (data : bytes) : bytes := sha256 data.

Definition dynamic_concurrency (cpu_count : Z) (dataset_size fragment_size : Z)
  : Z :=
  let base_concurrency := Z.min 50 (cpu_count * 2) in
  if (dataset_size <=? 1024 * 100)%Z then Z.max 5 (base_concurrency `div` 4)
  else if (dataset_size <=? 1024 * 10000)%Z then base_concurrency
  else Z.min 300 (base_concurrency * 3).

Definition optimal_fragment_size (dataset_size : Z) : Z :=
  if (dataset_size <=? 1024 * 100)%Z then dataset_size
  else if (dataset_size <=? 1024 * 1000)%Z then (1024 * 50)%Z
  else if (dataset_size <=? 1024 * 10000)%Z then (1024 * 100)%Z
  else (1024 * 200)%Z.

(** An encrypted replica as the tuple
    [(fragment_id, replica, encrypted_fragment, tag, checksum)]. *)
Definition encrypted : Type := nat * nat * bytes * bytes * bytes.

Definition encrypt_fragment_sync (args : nat * bytes * bytes * nat)
  : result encrypted :=
  let '(fragment_id, fragment, dataset_checksum, replica) := args in
  let kms := {| dataset_checksum := dataset_checksum |} in
  let '(key, nonce) := generate_key kms fragment_id replica in
  let* algorithm := cryptography.AES key in
  let* mode := cryptography.GCM nonce None in
  let '(encrypted_fragment, tag) := aes_gcm_encrypt key nonce fragment in
  let checksum := calculate_checksum encrypted_fragment in
  Ok (fragment_id, replica, encrypted_fragment, tag, checksum).

Definition compress_data (data : bytes) : bytes := zlib_compress data.

Definition decompress_data (data : bytes) : option bytes :=
  zlib_decompress data.

(** *** class AssemblyLine *)

Record AssemblyLine : Type := {
  node_paths : list string;
  kms : KeyManagementSystem;
  fragment_size : nat;
  replication_factor : nat;
}.

(** [AssemblyLine.__init__] *)
Definition new_AssemblyLine (node_paths : list string)
    (dataset_checksum : bytes) (fragment_size replication_factor : nat)
  : AssemblyLine :=
  {| node_paths := node_paths;
     kms := {| dataset_checksum := dataset_checksum |};
     fragment_size := fragment_size;
     replication_factor := replication_factor |}.

Definition fragment_data (self : AssemblyLine) (data : bytes)
    (fragment_size' : option nat) : result (list bytes) :=
  let fragment_size := default self.(fragment_size) fragment_size' in
  let* starts := Py.range3 0 (length data) fragment_size in
  Ok ((λ i, Py.slice data (Some (Z.of_nat i))
              (Some (Z.of_nat (i + fragment_size)))) <$> starts).

Definition encrypt_fragment_sync_inline (self : AssemblyLine)
    (fragment_id : nat) (compressed_fragment : bytes) (replica : nat)
  : result (bytes * bytes * bytes) :=
  let '(key, nonce) := generate_key self.(kms) fragment_id replica in
  let* algorithm := cryptography.AES key in
  let* mode := cryptography.GCM nonce None in
  let '(encrypted_fragment, tag) :=
    aes_gcm_encrypt key nonce compressed_fragment in
  let checksum := calculate_checksum encrypted_fragment in
  Ok (encrypted_fragment, tag, checksum).

Definition inline_process_small_dataset (self : AssemblyLine) (data : bytes)
  : result (list encrypted) :=
  let fragment_id := 0 in
  let compressed_data := compress_data data in
  let* (encrypted_fragment, tag, checksum) :=
    encrypt_fragment_sync_inline self fragment_id compressed_data 0 in
  Ok [(fragment_id, 0, encrypted_fragment, tag, checksum)].

Definition encrypt_fragments (self : AssemblyLine) (fragments : list bytes)
    (inline : bool) : result (list encrypted) :=
  if inline && bool_decide (length fragments = 1) then
    let* fragment0 := Py.getitem fragments 0 in
    let compressed_data := compress_data fragment0 in
    let* (encrypted_fragment, tag, checksum) :=
      encrypt_fragment_sync_inline self 0 compressed_data 0 in
    Ok [(0, 0, encrypted_fragment, tag, checksum)]
  else
    let args :=
      concat (imap (λ i fragment,
                let compressed_fragment := compress_data fragment in
                (λ replica, (i, compressed_fragment,
                             self.(kms).(dataset_checksum), replica))
                  <$> Py.range2 0 self.(replication_factor))
              fragments) in
    gather encrypt_fragment_sync args.

(** The path computed by [_store_fragment]. *)
Definition store_path (self : AssemblyLine) (fragment_id replica : nat)
  : result string :=
  let* node_index :=
    Py.mod_ (fragment_id * self.(replication_factor) + replica)
      (length self.(node_paths)) in
  let* node_path := Py.getitem self.(node_paths) node_index in
  Ok (os_path.join node_path
        ("fragment_" +:+ Py.str_int fragment_id +:+ "_replica_"
         +:+ Py.str_int replica +:+ ".pkl")).

Definition _store_fragment (self : AssemblyLine) (item : encrypted)
    (disk : filesystem) : result filesystem :=
  let '(fragment_id, replica, encrypted_fragment, tag, checksum) := item in
  let* fragment_path := store_path self fragment_id replica in
  fs.write fragment_path (encrypted_fragment ++ tag ++ checksum) disk.

Definition batch_size_for (total_fragments : nat) : nat :=
  if decide (1000 < total_fragments) then 50
  else if decide (500 < total_fragments) then 25
  else 10.

Definition store_fragments (self : AssemblyLine)
    (encrypted_fragments : list encrypted) (disk : filesystem)
  : result filesystem :=
  let* total_fragments :=
    Py.floordiv (length encrypted_fragments) self.(replication_factor) in
  let batch_size := batch_size_for total_fragments in
  let store_batch (batch : list encrypted) (disk : filesystem) :=
    for_each (_store_fragment self) batch disk in
  let* starts :=
    Py.range3 0 (length encrypted_fragments)
      (batch_size * self.(replication_factor)) in
  for_each
    (λ i disk,
       let batch :=
         Py.slice encrypted_fragments (Some (Z.of_nat i))
           (Some (Z.of_nat (i + batch_size * self.(replication_factor)))) in
       store_batch batch disk)
    starts disk.

(** The logging call that precedes each [continue] of the replica loop. *)
Inductive rejection : Set :=
  | replica_missing      (* warning: "... is missing." *)
  | data_incomplete      (* error: "... data is incomplete or corrupted." *)
  | checksum_mismatch    (* error: "Checksum mismatch for ..." *)
  | decryption_failed.   (* error: "Decryption failed for ..." *)

Inductive verdict : Type :=
  | Continue (why : rejection)
  | Return (decrypted_fragment : bytes).

(** The path computed in the replica loop of [retrieve_fragment]. *)
Definition probe_path (self : AssemblyLine) (fragment_id replica : nat)
  : result string :=
  let* node_index :=
    Py.mod_ (fragment_id * self.(replication_factor) + replica)
      (length self.(node_paths)) in
  let* node_path := Py.getitem self.(node_paths) node_index in
  Ok (os_path.join node_path
        ("fragment_" +:+ Py.str_int fragment_id +:+ "_replica_"
         +:+ Py.str_int replica +:+ ".pkl")).

(** The [try] block of the replica loop; [except Exception] turns both
    [InvalidTag] and [zlib.error] into a [continue]. *)
Definition try_decrypt (key nonce tag encrypted_fragment : bytes) : verdict :=
  match aes_gcm_decrypt key nonce tag encrypted_fragment with
  | None => Continue decryption_failed
  | Some decrypted_compressed_fragment =>
      match decompress_data decrypted_compressed_fragment with
      | None => Continue decryption_failed
      | Some decrypted_fragment => Return decrypted_fragment
      end
  end.

(** One iteration of the replica loop of [retrieve_fragment]. *)
Definition probe_replica (self : AssemblyLine) (disk : filesystem)
    (fragment_id replica : nat) : result verdict :=
  let* fragment_path := probe_path self fragment_id replica in
  if negb (fs.exists_ disk fragment_path) then Ok (Continue replica_missing)
  else
    let* data := fs.read disk fragment_path in
    if decide (length data < 48) then Ok (Continue data_incomplete)
    else
      let encrypted_fragment := Py.slice data None (Some (-48)%Z) in
      let tag := Py.slice data (Some (-48)%Z) (Some (-32)%Z) in
      let checksum := Py.slice data (Some (-32)%Z) None in
      let calculated_checksum := calculate_checksum encrypted_fragment in
      if decide (checksum ≠ calculated_checksum)
      then Ok (Continue checksum_mismatch)
      else
        let '(key, nonce) := generate_key self.(kms) fragment_id replica in
        let* algorithm := cryptography.AES key in
        let* mode := cryptography.GCM nonce (Some tag) in
        Ok (try_decrypt key nonce tag encrypted_fragment).

Fixpoint retrieve_fragment_loop (self : AssemblyLine) (disk : filesystem)
    (fragment_id : nat) (replicas : list nat) : result (option bytes) :=
  match replicas with
  | [] => Ok None
  | replica :: rest =>
      let* v := probe_replica self disk fragment_id replica in
      match v with
      | Continue _ => retrieve_fragment_loop self disk fragment_id rest
      | Return decrypted_fragment => Ok (Some decrypted_fragment)
      end
  end.

Definition retrieve_fragment (self : AssemblyLine) (disk : filesystem)
    (fragment_id : nat) : result (option bytes) :=
  let fragment_replicas (fragment_id : nat) :=
    Py.range2 0 self.(replication_factor) in
  retrieve_fragment_loop self disk fragment_id (fragment_replicas fragment_id).

(** [for fid, frag in zip(batch_ids, retrieved): if frag is not None: ...] *)
Definition recovered_of (batch_ids : list nat) (retrieved : list (option bytes))
  : list (nat * bytes) :=
  omap (λ '(fid, frag), (λ d, (fid, d)) <$> frag) (zip batch_ids retrieved).

(** The closing list comprehension, [f is not None], keeps every tuple. *)
Definition retrieve_fragments (self : AssemblyLine) (num_fragments : nat)
    (disk : filesystem) : result (list (nat * bytes)) :=
  let batch_size := batch_size_for num_fragments in
  let* starts := Py.range3 0 num_fragments batch_size in
  let* fragments :=
    for_each
      (λ i fragments,
         let batch_ids :=
           Py.range2 i (Nat.min (i + batch_size) num_fragments) in
         let* retrieved := gather (retrieve_fragment self disk) batch_ids in
         Ok (fragments ++ recovered_of batch_ids retrieved))
      starts [] in
  Ok fragments.

Definition parallel_reassemble (fragments : list (nat * bytes)) : bytes :=
  if decide (fragments = []) then []
  else
    let fragments_sorted := Py.sorted fst fragments in
    let data_chunks := snd <$> fragments_sorted in
    concat data_chunks.

(** *** The sequence run by the benchmark: store, then retrieve *)

Definition store (self : AssemblyLine) (data : bytes) (inline : bool)
    (disk : filesystem) : result (nat * filesystem) :=
  let* fragments := fragment_data self data (Some self.(fragment_size)) in
  let* encrypted_fragments := encrypt_fragments self fragments inline in
  let* disk' := store_fragments self encrypted_fragments disk in
  Ok (length fragments, disk').

Definition retrieve (self : AssemblyLine) (num_fragments : nat)
    (disk : filesystem) : result bytes :=
  let* retrieved_fragments := retrieve_fragments self num_fragments disk in
  Ok (parallel_reassemble retrieved_fragments).

End pipeline.

(** ** Notions used to state and prove the properties *)

(** Decimal digits and the separator of paths. *)
Definition is_digit (c : ascii) : bool :=
  bool_decide (48 ≤ nat_of_ascii c ≤ 57).

Fixpoint all_digits (s : string) : bool :=
  match s with
  | "" => true
  | String c t => is_digit c && all_digits t
  end.

Fixpoint sep_free (s : string) : bool :=
  match s with
  | "" => true
  | String c t => negb (bool_decide (c = "/"%char)) && sep_free t
  end.

(** The last component of a path. *)
Fixpoint basename (s : string) : string :=
  match s with
  | "" => ""
  | String c t =>
      if sep_free t then (if bool_decide (c = "/"%char) then t else s)
      else basename t
  end.

(** [data.hex()]: two lowercase hexadecimal digits per byte. *)
Definition hex (data : bytes) : string :=
  foldr (λ b acc,
           let n := Byte.to_N b in
           String (Py.hexdigit (n `div` 16)%N)
             (String (Py.hexdigit (n `mod` 16)%N) acc)) "" data.

(** The seed as the specification words it, with the checksum in
    hexadecimal; [key_seed] is the one the code builds. *)
Definition spec_seed (H : bytes) (fragment_id replica : nat) : bytes :=
  Py.encode (Py.str_int fragment_id +:+ ":" +:+ hex H +:+ ":"
             +:+ Py.str_int replica).

(** The part of the seed that precedes the replica id. *)
Definition seed_head (kms : KeyManagementSystem) (fragment_id : nat) : bytes :=
  Py.encode (Py.str_int fragment_id +:+ ":"
             +:+ Py.repr_bytes kms.(dataset_checksum)).

(** What the replica loop makes of a regular file holding [blob]. *)
Definition blob_verdict `{CryptoLib} (kms : KeyManagementSystem)
    (fragment_id replica : nat) (blob : bytes) : verdict :=
  let encrypted_fragment := take (length blob - 48) blob in
  let tag := take 16 (drop (length blob - 48) blob) in
  let checksum := drop (length blob - 32) blob in
  if decide (length blob < 48) then Continue data_incomplete
  else if decide (checksum ≠ calculate_checksum encrypted_fragment)
  then Continue checksum_mismatch
  else try_decrypt (generate_key kms fragment_id replica).1
         (generate_key kms fragment_id replica).2 tag encrypted_fragment.

(** No blob path of fragment [fragment_id] holds a directory. *)
Definition readable (self : AssemblyLine) (disk : filesystem)
    (fragment_id : nat) : Prop :=
  ∀ replica path,
    replica < self.(replication_factor) →
    store_path self fragment_id replica = Ok path →
    disk !! path ≠ Some Directory.

(** What one batch of fragment ids adds to the recovered fragments. *)
Definition collect (f : nat → result (option bytes)) (batch_ids : list nat)
  : result (list (nat * bytes)) :=
  let* retrieved := gather f batch_ids in
  Ok (recovered_of batch_ids retrieved).

(** The tuple [encrypt_fragment_sync] returns for a compressed fragment. *)
Definition sealed `{CryptoLib} (kms : KeyManagementSystem)
    (fragment_id replica : nat) (compressed : bytes) : encrypted :=
  let key := (generate_key kms fragment_id replica).1 in
  let nonce := (generate_key kms fragment_id replica).2 in
  let sealed_text := aes_gcm_encrypt key nonce compressed in
  (fragment_id, replica, sealed_text.1, sealed_text.2,
   calculate_checksum sealed_text.1).

(** The bytes [_store_fragment] writes for such a tuple. *)
Definition blob_of (item : encrypted) : bytes :=
  let '(_, _, encrypted_fragment, tag, checksum) := item in
  encrypted_fragment ++ tag ++ checksum.

(** The slices [fragment_data] cuts. *)
Definition fragments_of (size : nat) (data : bytes) : list bytes :=
  (λ j, take size (drop (j * size) data))
    <$> seq 0 ((length data + (size - 1)) `div` size).

(** The tuples of the replicated path of [encrypt_fragments], and those of
    either path. *)
Definition replicas_of `{CryptoLib} (self : AssemblyLine)
    (fragments : list bytes) : list encrypted :=
  concat (imap (λ i fragment,
            (λ replica, sealed self.(kms) i replica (compress_data fragment))
              <$> seq 0 self.(replication_factor))
          fragments).

Definition stored_items `{CryptoLib} (self : AssemblyLine)
    (fragments : list bytes) (inline : bool) : list encrypted :=
  if inline && bool_decide (length fragments = 1) then
    match fragments with
    | fragment :: _ => [sealed self.(kms) 0 0 (compress_data fragment)]
    | [] => []
    end
  else replicas_of self fragments.

(** The name of the blob file of a replica. *)
Definition blob_name (fragment_id replica : nat) : string :=
  "fragment_" +:+ Py.str_int fragment_id +:+ "_replica_"
  +:+ Py.str_int replica +:+ ".pkl".

(** ** A stand-in library to run the pipeline on concrete inputs *)
Module Toy.

Definition pad (n : nat) (d : bytes) : bytes := take n (d ++ replicate n x00).

#[local] Instance lib : CryptoLib := {|
  sha256 d := pad 32 d;
  zlib_compress d := x78 :: d;
  zlib_decompress d := match d with x78 :: d' => Some d' | _ => None end;
  pbkdf2_hmac_sha256 n salt it km := pad n (rev km);
  aes_gcm_encrypt key nonce pt := (rev pt, pad 16 (key ++ pt));
  aes_gcm_decrypt key nonce tag ct :=
    if decide (tag = pad 16 (key ++ rev ct)) then Some (rev ct) else None;
|}.

(** The node directories of the benchmark. *)
Definition nodes : list string := ["data/node1"; "data/node2"; "data/node3"].

Definition payload : bytes := [x01; x02; x03].

(** A pipeline with fragments of two bytes and two replicas. *)
Definition line : AssemblyLine :=
  new_AssemblyLine nodes (calculate_checksum payload) 2 2.

(** The disk after storing [payload] on empty nodes. *)
Definition stored : filesystem :=
  match store line payload false ∅ with
  | Ok (_, disk) => disk
  | Raise _ => ∅
  end.

(** The disk with both replicas of a fragment removed. *)
Definition lose (fragment_id : nat) (disk : filesystem) : filesystem :=
  match store_path line fragment_id 0, store_path line fragment_id 1 with
  | Ok path0, Ok path1 => delete path0 (delete path1 disk)
  | _, _ => disk
  end.

(** A pipeline with one-byte fragments over a payload of two equal bytes. *)
Definition twin_payload : bytes := [x01; x01].

Definition twin_line : AssemblyLine :=
  new_AssemblyLine nodes (calculate_checksum twin_payload) 1 2.

Definition twin_stored : filesystem :=
  match store twin_line twin_payload false ∅ with
  | Ok (_, disk) => disk
  | Raise _ => ∅
  end.

Definition twin_lose (fragment_id : nat) (disk : filesystem) : filesystem :=
  match store_path twin_line fragment_id 0, store_path twin_line fragment_id 1 with
  | Ok path0, Ok path1 => delete path0 (delete path1 disk)
  | _, _ => disk
  end.

End Toy.


(** ** crystal_storage: the fragmentation and routing managers

    [crystal_storage/fragmentation.py] and [crystal_storage/routing.py];
    fragment indices are naturals and logging is omitted. *)
Module crystal_storage.

(** *** class FragmentationManager *)

Record FragmentationManager : Type := {
  fragment_size : nat;
}.

Definition fragment_data (self : FragmentationManager) (data : bytes)
  : result (list bytes) :=
  let* starts := Py.range3 0 (length data) self.(fragment_size) in
  Ok ((λ i, Py.slice data (Some (Z.of_nat i))
              (Some (Z.of_nat (i + self.(fragment_size))))) <$> starts).

Definition merge_fragments (self : FragmentationManager)
    (fragments : list bytes) : bytes :=
  concat fragments.

(** *** class RoutingManager *)

Record RoutingManager : Type := {
  node_paths : list string;
}.

Definition store_fragment (self : RoutingManager) (fragment : bytes)
    (node_index : nat) (disk : filesystem) : result filesystem :=
  let* k := Py.mod_ node_index (length self.(node_paths)) in
  let* node_path := Py.getitem self.(node_paths) k in
  let fragment_path :=
    os_path.join node_path
      ("fragment_" +:+ Py.str_int node_index +:+ ".pkl") in
  fs.write fragment_path fragment disk.

Definition retrieve_fragment (self : RoutingManager) (node_index : nat)
    (disk : filesystem) : result bytes :=
  let* k := Py.mod_ node_index (length self.(node_paths)) in
  let* node_path := Py.getitem self.(node_paths) k in
  let fragment_path :=
    os_path.join node_path
      ("fragment_" +:+ Py.str_int node_index +:+ ".pkl") in
  fs.read disk fragment_path.

End crystal_storage.

(** * Properties *)

(** ** Slices *)

Section slices.
Context {A : Type}.
Implicit Types l : list A.

Lemma slice_prefix l (k : nat) :
  Py.slice l None (Some (Z.of_nat k)) = take k l.
Proof.
  unfold Py.slice, Py.clamp; simpl.
  destruct (Z.ltb_spec (Z.of_nat k) 0); [lia|].
  rewrite Z.sub_0_r, drop_0.
  destruct (decide (k ≤ length l)).
  - by rewrite Z.min_l, Nat2Z.id by lia.
  - rewrite Z.min_r, Nat2Z.id by lia.
    by rewrite !take_ge by lia.
Qed.

Lemma slice_window l (i k : nat) :
  Py.slice l (Some (Z.of_nat i)) (Some (Z.of_nat (i + k))) = take k (drop i l).
Proof.
  unfold Py.slice, Py.clamp; simpl.
  destruct (Z.ltb_spec (Z.of_nat i) 0); [lia|].
  destruct (Z.ltb_spec (Z.of_nat (i + k)) 0); [lia|].
  destruct (decide (i ≤ length l)).
  - rewrite (Z.min_l (Z.of_nat i)), Nat2Z.id by lia.
    destruct (decide (i + k ≤ length l)).
    + rewrite Z.min_l by lia. f_equal. lia.
    + rewrite Z.min_r by lia.
      by rewrite !take_ge by (rewrite length_drop; lia).
  - rewrite !Z.min_r by lia. rewrite Z.sub_diag, Nat2Z.id. simpl.
    rewrite !drop_ge by lia. by rewrite !take_nil.
Qed.

Lemma slice_drop_trailer l :
  48 ≤ length l → Py.slice l None (Some (-48)%Z) = take (length l - 48) l.
Proof.
  intros. unfold Py.slice, Py.clamp; simpl.
  rewrite Z.max_r, Z.sub_0_r, drop_0 by lia. f_equal. lia.
Qed.

Lemma slice_tag l :
  48 ≤ length l →
  Py.slice l (Some (-48)%Z) (Some (-32)%Z) = take 16 (drop (length l - 48) l).
Proof.
  intros. unfold Py.slice, Py.clamp; simpl.
  rewrite !Z.max_r by lia. f_equal; [lia|f_equal; lia].
Qed.

Lemma slice_checksum l :
  48 ≤ length l → Py.slice l (Some (-32)%Z) None = drop (length l - 32) l.
Proof.
  intros. unfold Py.slice, Py.clamp; simpl.
  rewrite !Z.max_r by lia.
  replace (Z.to_nat (Z.of_nat (length l) + -32)) with (length l - 32) by lia.
  apply take_ge. rewrite length_drop. lia.
Qed.

(** The three slices of a framed blob give back its three parts. *)
Lemma slices_of_frame (ct tag csum : list A) :
  length tag = 16 → length csum = 32 →
  let blob := ct ++ tag ++ csum in
  Py.slice blob None (Some (-48)%Z) = ct
  ∧ Py.slice blob (Some (-48)%Z) (Some (-32)%Z) = tag
  ∧ Py.slice blob (Some (-32)%Z) None = csum.
Proof.
  intros Ht Hc blob.
  assert (length blob = length ct + 48) as Hlen
    by (unfold blob; rewrite !length_app; lia).
  rewrite slice_drop_trailer, slice_tag, slice_checksum by lia.
  rewrite Hlen. unfold blob.
  replace (length ct + 48 - 48) with (length ct) by lia.
  replace (length ct + 48 - 32) with (length ct + 16) by lia.
  split_and!.
  - by rewrite take_app_length.
  - rewrite drop_app_length. rewrite <-Ht. by rewrite take_app_length.
  - rewrite app_assoc. rewrite <-Ht, <-length_app. by rewrite drop_app_length.
Qed.

End slices.

(** ** Strings *)

Section strings.
Implicit Types s t : string.

Lemma string_length_app s t :
  String.length (s +:+ t) = String.length s + String.length t.
Proof. induction s; simpl; [reflexivity|congruence]. Qed.

Lemma encode_app s t : Py.encode (s +:+ t) = Py.encode s ++ Py.encode t.
Proof.
  unfold Py.encode, list_byte_of_string.
  induction s; simpl in *; [reflexivity|congruence].
Qed.

Lemma encode_length s : length (Py.encode s) = String.length s.
Proof.
  unfold Py.encode, list_byte_of_string.
  induction s; simpl in *; [reflexivity|congruence].
Qed.

Lemma repr_byte_length q b : 1 ≤ String.length (Py.repr_byte q b).
Proof. unfold Py.repr_byte. repeat case_decide; simpl; lia. Qed.

Lemma repr_bytes_length (data : bytes) :
  length data + 3 ≤ String.length (Py.repr_bytes data).
Proof.
  unfold Py.repr_bytes.
  generalize (if Py.mem_byte Py.squote data && negb (Py.mem_byte Py.dquote data)
              then Py.dquote else Py.squote); intros q.
  simpl. cut (length data + 1 ≤ String.length
    (foldr (λ b acc, Py.repr_byte q b +:+ acc) (String q "") data)); [lia|].
  induction data as [|b data IH]; simpl; [lia|].
  rewrite string_length_app. pose proof (repr_byte_length q b). lia.
Qed.

Lemma sep_free_app s t : sep_free (s +:+ t) = sep_free s && sep_free t.
Proof. induction s; simpl; [done|]. rewrite IHs. by rewrite andb_assoc. Qed.

Lemma is_digit_not_sep c : is_digit c = true → c ≠ "/"%char.
Proof. intros H ->. vm_compute in H. done. Qed.

Lemma all_digits_sep_free s : all_digits s = true → sep_free s = true.
Proof.
  induction s as [|c s IH]; simpl; [done|].
  intros [Hc Hs]%andb_true_iff. rewrite IH by done.
  apply is_digit_not_sep in Hc. by rewrite bool_decide_eq_false_2.
Qed.

Lemma pretty_N_char_digit x : is_digit (pretty_N_char x) = true.
Proof. unfold pretty_N_char. by repeat case_match. Qed.

Lemma pretty_N_go_digits x s :
  all_digits s = true → all_digits (pretty_N_go x s) = true.
Proof.
  revert s. induction (N.lt_wf_0 x) as [x _ IH]; intros s Hs.
  destruct (decide (x = 0%N)) as [->|]; [by rewrite pretty_N_go_0|].
  rewrite pretty_N_go_step by lia. apply IH.
  - apply N.div_lt; lia.
  - simpl. by rewrite pretty_N_char_digit.
Qed.

Lemma str_int_digits n : all_digits (Py.str_int n) = true.
Proof.
  unfold Py.str_int, pretty, pretty_nat, pretty, pretty_N.
  case_decide; [done|]. by apply pretty_N_go_digits.
Qed.

Lemma str_int_inj n m : Py.str_int n = Py.str_int m → n = m.
Proof. apply (inj pretty). Qed.

(** Two digit strings, each followed by a non-digit, are read off a common
    string in one way only. *)
Lemma digits_then_other d1 d2 c1 c2 t1 t2 :
  all_digits d1 = true → all_digits d2 = true →
  is_digit c1 = false → is_digit c2 = false →
  d1 +:+ String c1 t1 = d2 +:+ String c2 t2 →
  d1 = d2 ∧ String c1 t1 = String c2 t2.
Proof.
  revert d2. induction d1 as [|a d1 IH]; intros [|b d2]; simpl;
    intros H1 H2 Hc1 Hc2 Heq.
  - done.
  - simplify_eq. apply andb_true_iff in H2 as [? _]. congruence.
  - simplify_eq. apply andb_true_iff in H1 as [? _]. congruence.
  - apply andb_true_iff in H1 as [_ H1]. apply andb_true_iff in H2 as [_ H2].
    injection Heq as -> Heq.
    destruct (IH d2 H1 H2 Hc1 Hc2 Heq) as [-> ?]. done.
Qed.

Lemma basename_sep_free s : sep_free s = true → basename s = s.
Proof.
  destruct s as [|c t]; simpl; [done|].
  intros [Hc Ht]%andb_true_iff. rewrite Ht.
  by apply negb_true_iff in Hc as ->.
Qed.

Lemma basename_after_sep s t :
  sep_free t = true → basename (s +:+ String "/" t) = t.
Proof.
  intros Ht. induction s as [|c s IH]; simpl.
  - by rewrite Ht.
  - rewrite sep_free_app. simpl. by rewrite andb_false_r.
Qed.

Lemma ends_with_sep_spec s :
  os_path.ends_with_sep s = true → ∃ s', s = s' +:+ "/".
Proof.
  induction s as [|c s IH]; [done|].
  destruct s as [|c' s].
  - simpl. intros ->%bool_decide_eq_true. by exists "".
  - intros H. destruct IH as [s' Hs']; [done|].
    exists (String c s'). rewrite Hs'. reflexivity.
Qed.

Lemma string_app_assoc s t u : (s +:+ t) +:+ u = s +:+ (t +:+ u).
Proof.
  induction s as [|a s IH]; [reflexivity|].
  change (String a ((s +:+ t) +:+ u) = String a (s +:+ (t +:+ u))).
  by rewrite IH.
Qed.

Lemma basename_join a b :
  os_path.starts_with_sep b = false → sep_free b = true →
  basename (os_path.join a b) = b.
Proof.
  intros Hb Hfree. unfold os_path.join. rewrite Hb.
  destruct (bool_decide (a = "")) eqn:Ha; simpl.
  - apply bool_decide_eq_true in Ha as ->. by apply basename_sep_free.
  - destruct (os_path.ends_with_sep a) eqn:He.
    + apply ends_with_sep_spec in He as [a' ->].
      rewrite string_app_assoc. simpl. by apply basename_after_sep.
    + by apply basename_after_sep.
Qed.

End strings.

(** ** Blob names and paths *)

Section names.
Implicit Types i r : nat.

Lemma blob_name_not_absolute i r :
  os_path.starts_with_sep (blob_name i r) = false.
Proof. reflexivity. Qed.

Lemma blob_name_sep_free i r : sep_free (blob_name i r) = true.
Proof.
  unfold blob_name. rewrite !sep_free_app.
  rewrite !(all_digits_sep_free (Py.str_int _)) by apply str_int_digits.
  reflexivity.
Qed.

Lemma blob_name_inj i r i' r' :
  blob_name i r = blob_name i' r' → i = i' ∧ r = r'.
Proof.
  unfold blob_name. intros Heq.
  apply (inj (String.app "fragment_")) in Heq.
  apply (digits_then_other _ _ "_" "_") in Heq as [Hi Heq];
    [|apply str_int_digits..|done|done].
  apply str_int_inj in Hi as ->. split; [done|].
  apply (inj (String.app "_replica_")) in Heq.
  apply (digits_then_other _ _ "." ".") in Heq as [Hr _];
    [|apply str_int_digits..|done|done].
  by apply str_int_inj.
Qed.

(** Blobs of distinct replicas never share a path, whatever the nodes. *)
Lemma blob_path_inj (a a' : string) i r i' r' :
  os_path.join a (blob_name i r) = os_path.join a' (blob_name i' r') →
  i = i' ∧ r = r'.
Proof.
  intros Heq. apply blob_name_inj.
  rewrite <-(basename_join a (blob_name i r)),
    <-(basename_join a' (blob_name i' r'));
    auto using blob_name_not_absolute, blob_name_sep_free.
  by rewrite Heq.
Qed.

End names.

(** ** Key derivation *)

Section key_derivation.
Context {lib : CryptoLib}.
Implicit Types (kms : KeyManagementSystem) (i r : nat).

Lemma key_seed_split kms i r :
  key_seed kms i r = seed_head kms i ++ Py.encode (":" +:+ Py.str_int r).
Proof.
  unfold key_seed, seed_head. rewrite <-encode_app. f_equal.
  by rewrite !string_app_assoc.
Qed.

Lemma seed_head_length kms i :
  length kms.(dataset_checksum) + 4 ≤ length (seed_head kms i).
Proof.
  unfold seed_head. rewrite encode_length, !string_length_app.
  pose proof (repr_bytes_length kms.(dataset_checksum)).
  change (String.length ":") with 1. lia.
Qed.

Lemma key_seed_take kms i r k :
  k ≤ length kms.(dataset_checksum) + 4 →
  Py.slice (key_seed kms i r) None (Some (Z.of_nat k)) = take k (seed_head kms i)
  ∧ length (take k (seed_head kms i)) = k.
Proof.
  intros Hk. pose proof (seed_head_length kms i).
  rewrite slice_prefix, key_seed_split, take_app_le by lia.
  split; [done|]. rewrite length_take. lia.
Qed.

Lemma generate_key_eq kms i r :
  12 ≤ length kms.(dataset_checksum) →
  generate_key kms i r
  = (pbkdf2_hmac_sha256 32 (take 16 (seed_head kms i)) 100000
       (key_seed kms i r),
     take 12 (seed_head kms i)).
Proof.
  intros. unfold generate_key.
  change 16%Z with (Z.of_nat 16). change 12%Z with (Z.of_nat 12).
  destruct (key_seed_take kms i r 16) as [-> _]; [lia|].
  destruct (key_seed_take kms i r 12) as [-> _]; [lia|]. done.
Qed.

(** The cipher constructors accept what [generate_key] returns. *)
Lemma generate_key_accepted `{!CryptoLibLaws lib} kms i r tag :
  12 ≤ length kms.(dataset_checksum) → length tag = 16 →
  let '(key, nonce) := generate_key kms i r in
  cryptography.AES key = Ok key
  ∧ cryptography.GCM nonce None = Ok (nonce, None)
  ∧ cryptography.GCM nonce (Some tag) = Ok (nonce, Some tag)
  ∧ length key = 32 ∧ length nonce = 12.
Proof.
  intros HH Htag. rewrite generate_key_eq by done.
  assert (length (take 12 (seed_head kms i)) = 12) as Hn.
  { pose proof (seed_head_length kms i). rewrite length_take. lia. }
  unfold cryptography.AES, cryptography.GCM.
  rewrite pbkdf2_length, Hn, Htag. done.
Qed.

End key_derivation.

Section sizer.
Context {lib : CryptoLib}.
Local Open Scope Z_scope.

Lemma optimal_fragment_size_cases (N : Z) :
  optimal_fragment_size N =
    if decide (N ≤ 102400) then N
    else if decide (N ≤ 1024000) then 51200
    else if decide (N ≤ 10240000) then 102400
    else 204800.
Proof.
  unfold optimal_fragment_size.
  repeat case_decide;
    repeat match goal with
      | |- context [(?a <=? ?b)] => destruct (Z.leb_spec a b); try lia
      end; reflexivity.
Qed.

End sizer.

(** ** The read path *)

Section read_path.
Context {lib : CryptoLib}.
Implicit Types (self : AssemblyLine) (disk : filesystem) (i r : nat).

Lemma probe_path_store_path self i r : probe_path self i r = store_path self i r.
Proof. reflexivity. Qed.

Lemma store_path_ok self i r :
  self.(node_paths) ≠ [] →
  ∃ node_path,
    self.(node_paths) !! ((i * self.(replication_factor) + r)
                          `mod` length self.(node_paths)) = Some node_path
    ∧ store_path self i r = Ok (os_path.join node_path (blob_name i r)).
Proof.
  intros Hnodes. unfold store_path, Py.mod_.
  assert (length self.(node_paths) ≠ 0) by (by destruct self.(node_paths)).
  case_decide; [done|]. simpl. unfold Py.getitem.
  destruct (lookup_lt_is_Some_2 self.(node_paths)
              ((i * self.(replication_factor) + r) `mod` length self.(node_paths)))
    as [node Hnode]; [by apply Nat.mod_upper_bound|].
  exists node. by rewrite Hnode.
Qed.

Lemma store_path_inv self i r path :
  store_path self i r = Ok path →
  ∃ node_path, path = os_path.join node_path (blob_name i r).
Proof.
  unfold store_path, Py.mod_, Py.getitem. case_decide; [done|]. simpl.
  destruct (_ !! _) as [node|]; [|done]. simpl. intros [= <-]. by exists node.
Qed.

Lemma store_path_inj self i r i' r' path :
  store_path self i r = Ok path → store_path self i' r' = Ok path →
  i = i' ∧ r = r'.
Proof.
  intros [a ->]%store_path_inv [a' Heq]%store_path_inv.
  by apply blob_path_inj in Heq.
Qed.

Lemma probe_replica_missing self disk i r path :
  store_path self i r = Ok path → disk !! path = None →
  probe_replica self disk i r = Ok (Continue replica_missing).
Proof.
  intros Hp Hd. unfold probe_replica. rewrite probe_path_store_path, Hp.
  simpl. unfold fs.exists_. rewrite Hd.
  rewrite bool_decide_eq_false_2 by (by intros [? ?]). done.
Qed.

Lemma probe_replica_directory self disk i r path :
  store_path self i r = Ok path → disk !! path = Some Directory →
  probe_replica self disk i r = Raise IsADirectoryError.
Proof.
  intros Hp Hd. unfold probe_replica. rewrite probe_path_store_path, Hp.
  simpl. unfold fs.exists_, fs.read. rewrite Hd.
  rewrite bool_decide_eq_true_2 by eauto. done.
Qed.

Lemma probe_replica_regular `{!CryptoLibLaws lib} self disk i r path blob :
  12 ≤ length self.(kms).(dataset_checksum) →
  store_path self i r = Ok path → disk !! path = Some (Regular blob) →
  probe_replica self disk i r = Ok (blob_verdict self.(kms) i r blob).
Proof.
  intros HH Hp Hd. unfold probe_replica, blob_verdict.
  rewrite probe_path_store_path, Hp.
  pose proof (generate_key_accepted self.(kms) i r
                (take 16 (drop (length blob - 48) blob)) HH) as Hacc.
  destruct (generate_key self.(kms) i r) as [key nonce].
  simpl. unfold fs.exists_, fs.read. rewrite Hd.
  rewrite bool_decide_eq_true_2 by eauto. simpl.
  case_decide; [done|].
  rewrite slice_drop_trailer, slice_tag, slice_checksum by lia.
  case_decide; [done|].
  destruct Hacc as (-> & _ & -> & _).
  { rewrite length_take, length_drop. lia. }
  done.
Qed.

(** A replica either is rejected, is recovered or, when its path holds a
    directory, makes the loop raise. *)
Lemma probe_replica_total `{!CryptoLibLaws lib} self disk i r :
  self.(node_paths) ≠ [] → 12 ≤ length self.(kms).(dataset_checksum) →
  (∀ path, store_path self i r = Ok path → disk !! path ≠ Some Directory) →
  ∃ v, probe_replica self disk i r = Ok v.
Proof.
  intros Hnodes HH Hdir.
  destruct (store_path_ok self i r Hnodes) as (node & _ & Hp).
  destruct (disk !! os_path.join node (blob_name i r)) as [[blob|]|] eqn:Hd.
  - eexists. by eapply probe_replica_regular.
  - by destruct (Hdir _ Hp).
  - eexists. by eapply probe_replica_missing.
Qed.

Lemma retrieve_fragment_loop_total `{!CryptoLibLaws lib} self disk i replicas :
  self.(node_paths) ≠ [] → 12 ≤ length self.(kms).(dataset_checksum) →
  (∀ r path, r ∈ replicas → store_path self i r = Ok path →
             disk !! path ≠ Some Directory) →
  ∃ o, retrieve_fragment_loop self disk i replicas = Ok o.
Proof.
  intros Hnodes HH. induction replicas as [|r rest IH]; intros Hdir; simpl.
  - by eexists.
  - destruct (probe_replica_total self disk i r Hnodes HH) as [v ->].
    { intros path. apply Hdir. by left. }
    simpl. destruct v; [|by eexists].
    apply IH. intros r' path Hr'. apply Hdir. by right.
Qed.

Lemma retrieve_fragment_total `{!CryptoLibLaws lib} self disk i :
  self.(node_paths) ≠ [] → 12 ≤ length self.(kms).(dataset_checksum) →
  readable self disk i →
  ∃ o, retrieve_fragment self disk i = Ok o.
Proof.
  intros Hnodes HH Hread. apply retrieve_fragment_loop_total; [done..|].
  intros r path Hr. apply Hread.
  unfold Py.range2 in Hr. apply elem_of_seq in Hr. lia.
Qed.

(** When every replica is rejected the fragment is reported as [None]. *)
Lemma retrieve_fragment_loop_all_rejected self disk i replicas :
  (∀ r, r ∈ replicas → ∃ why, probe_replica self disk i r = Ok (Continue why)) →
  retrieve_fragment_loop self disk i replicas = Ok None.
Proof.
  induction replicas as [|r rest IH]; intros Hrej; simpl; [done|].
  destruct (Hrej r) as [why ->]; [by left|]. simpl.
  apply IH. intros r' Hr'. apply Hrej. by right.
Qed.

(** A recovered first replica ends the loop. *)
Lemma retrieve_fragment_first self disk i d :
  0 < self.(replication_factor) →
  probe_replica self disk i 0 = Ok (Return d) →
  retrieve_fragment self disk i = Ok (Some d).
Proof.
  intros HR Hprobe. unfold retrieve_fragment, Py.range2. rewrite Nat.sub_0_r.
  destruct self.(replication_factor) as [|R]; [lia|].
  change (seq 0 (S R)) with (0 :: seq 1 R). cbn [retrieve_fragment_loop].
  by rewrite Hprobe.
Qed.

End read_path.

(** ** Loops, batches and gathered tasks *)

Section loops.
Context {A B St : Type}.
Implicit Types (l : list A) (s : St).

Lemma bind_ok {C D} (c : C) (k : C → result D) : bind (Ok c) k = k c.
Proof. reflexivity. Qed.

Lemma for_each_ext (body body' : A → St → result St) l s :
  (∀ a s, body a s = body' a s) → for_each body l s = for_each body' l s.
Proof.
  intros Hext. revert s. induction l as [|a l IH]; intros s; simpl; [done|].
  rewrite Hext. destruct (body' a s); simpl; auto.
Qed.

Lemma for_each_app (body : A → St → result St) l1 l2 s :
  for_each body (l1 ++ l2) s
  = let* s' := for_each body l1 s in for_each body l2 s'.
Proof.
  revert s. induction l1 as [|a l1 IH]; intros s; simpl; [done|].
  destruct (body a s); simpl; auto.
Qed.

Lemma for_each_concat (body : A → St → result St) (ls : list (list A)) s :
  for_each (λ chunk s, for_each body chunk s) ls s
  = for_each body (concat ls) s.
Proof.
  revert s. induction ls as [|c ls IH]; intros s; simpl; [done|].
  rewrite for_each_app. destruct (for_each body c s); simpl; auto.
Qed.

Lemma for_each_fmap {C} (f : C → A) (body : A → St → result St) (l : list C) s :
  for_each body (f <$> l) s = for_each (λ c, body (f c)) l s.
Proof.
  revert s. induction l as [|c l IH]; intros s; simpl; [done|].
  destruct (body (f c) s); simpl; auto.
Qed.

Lemma gather_app (f : A → result B) l1 l2 :
  gather f (l1 ++ l2)
  = let* b1 := gather f l1 in let* b2 := gather f l2 in Ok (b1 ++ b2).
Proof.
  induction l1 as [|a l1 IH]; simpl.
  - by destruct (gather f l2).
  - destruct (f a); simpl; [|done]. rewrite IH.
    destruct (gather f l1); simpl; [|done].
    by destruct (gather f l2).
Qed.

Lemma gather_length (f : A → result B) l bs :
  gather f l = Ok bs → length bs = length l.
Proof.
  revert bs. induction l as [|a l IH]; intros bs; simpl.
  - by intros [= <-].
  - destruct (f a); simpl; [|done].
    destruct (gather f l) as [bs'|]; simpl; [|done].
    intros [= <-]. simpl. f_equal. by apply IH.
Qed.

Lemma gather_ok (f : A → result B) (g : A → B) l :
  (∀ a, a ∈ l → f a = Ok (g a)) → gather f l = Ok (g <$> l).
Proof.
  induction l as [|a l IH]; intros Hf; simpl; [done|].
  rewrite Hf by left. simpl. rewrite IH; [done|].
  intros a' Ha'. apply Hf. by right.
Qed.

Lemma gather_total (f : A → result B) l :
  (∀ a, a ∈ l → ∃ b, f a = Ok b) → ∃ bs, gather f l = Ok bs.
Proof.
  induction l as [|a l IH]; intros Hf; simpl; [by eexists|].
  destruct (Hf a) as [b ->]; [by left|].
  destruct IH as [bs ->]; [|by eexists].
  intros a' Ha'. apply Hf. by right.
Qed.

Lemma gather_lookup (f : A → result B) l bs k a :
  gather f l = Ok bs → l !! k = Some a →
  ∃ b, bs !! k = Some b ∧ f a = Ok b.
Proof.
  revert bs k. induction l as [|a' l IH]; intros bs k; simpl; [done|].
  destruct (f a') as [b'|] eqn:Hfa; simpl; [|done].
  destruct (gather f l) as [bs'|]; simpl; [|done].
  intros [= <-]. destruct k as [|k]; simpl.
  - intros [= ->]. eauto.
  - intros Hk. by apply IH.
Qed.

(** Cutting a list into windows of [k] and gluing them back. *)
Lemma windows_concat l (k m : nat) :
  k ≠ 0 → length l ≤ m * k →
  concat ((λ j, take k (drop (j * k) l)) <$> seq 0 m) = l.
Proof.
  intros Hk. revert l. induction m as [|m IH]; intros l Hlen.
  - destruct l; [done|simpl in Hlen; lia].
  - rewrite <-cons_seq, <-fmap_S_seq. simpl.
    rewrite <-list_fmap_compose, drop_0.
    trans (take k l ++ drop k l); [|apply take_drop]. f_equal.
    rewrite <-(IH (drop k l)) by (rewrite length_drop; lia).
    f_equal. apply list_fmap_ext. intros _ j _. simpl.
    by rewrite drop_drop.
Qed.

Lemma range3_windows (n k : nat) :
  k ≠ 0 →
  ∃ m, n ≤ m * k ∧ Py.range3 0 n k = Ok ((λ j, j * k) <$> seq 0 m).
Proof.
  intros Hk. exists ((n - 0 + (k - 1)) `div` k). split.
  - rewrite Nat.sub_0_r.
    pose proof (Nat.div_mod (n + (k - 1)) k Hk).
    pose proof (Nat.mod_upper_bound (n + (k - 1)) k Hk). nia.
  - unfold Py.range3. by case_decide.
Qed.

End loops.

(** A loop over the windows of a list is a loop over the list. *)
Lemma for_each_windows {A St} (body : A → St → result St) (l : list A)
    (k : nat) (s : St) :
  k ≠ 0 →
  (let* starts := Py.range3 0 (length l) k in
   for_each
     (λ i s, for_each body
               (Py.slice l (Some (Z.of_nat i)) (Some (Z.of_nat (i + k)))) s)
     starts s)
  = for_each body l s.
Proof.
  intros Hk. destruct (range3_windows (length l) k Hk) as (m & Hm & ->).
  rewrite bind_ok, for_each_fmap.
  rewrite (for_each_ext _
             (λ j s, for_each body (take k (drop (j * k) l)) s))
    by (intros; by rewrite slice_window).
  rewrite <-(for_each_fmap (λ j, take k (drop (j * k) l))
               (λ chunk s, for_each body chunk s)).
  rewrite for_each_concat. by rewrite windows_concat.
Qed.

(** ** Batched retrieval *)

Section batches.
Context (f : nat → result (option bytes)).

Lemma collect_app b1 b2 :
  collect f (b1 ++ b2)
  = let* x := collect f b1 in let* y := collect f b2 in Ok (x ++ y).
Proof.
  unfold collect. rewrite gather_app.
  destruct (gather f b1) as [r1|] eqn:H1; simpl; [|done].
  destruct (gather f b2) as [r2|] eqn:H2; simpl; [|done].
  apply gather_length in H1. unfold recovered_of.
  by rewrite zip_with_app, omap_app.
Qed.

Lemma for_each_collect (batches : list (list nat)) acc :
  for_each (λ batch acc, let* x := collect f batch in Ok (acc ++ x)) batches acc
  = let* x := collect f (concat batches) in Ok (acc ++ x).
Proof.
  revert acc. induction batches as [|b bs IH]; intros acc; simpl.
  - by rewrite app_nil_r.
  - rewrite collect_app. destruct (collect f b) as [x|]; simpl; [|done].
    rewrite IH. destruct (collect f (concat bs)); simpl; [|done].
    by rewrite app_assoc.
Qed.

Lemma batches_concat (n k : nat) :
  k ≠ 0 →
  ∃ m, Py.range3 0 n k = Ok ((λ j, j * k) <$> seq 0 m)
       ∧ concat ((λ j, Py.range2 (j * k) (Nat.min (j * k + k) n)) <$> seq 0 m)
         = seq 0 n.
Proof.
  intros Hk. destruct (range3_windows n k Hk) as (m & Hm & Hr).
  exists m. split; [done|].
  trans (concat ((λ j, take k (drop (j * k) (seq 0 n))) <$> seq 0 m));
    [|apply windows_concat; rewrite ?length_seq; done].
  f_equal. apply list_fmap_ext. intros _ j _. simpl.
  unfold Py.range2. rewrite drop_seq, take_seq. simpl. f_equal. lia.
Qed.

End batches.


Section retrieval.
Context {lib : CryptoLib}.
Implicit Types (self : AssemblyLine) (disk : filesystem).

Lemma batch_size_for_pos n : batch_size_for n ≠ 0.
Proof. unfold batch_size_for. by repeat case_decide. Qed.

(** The batches of [retrieve_fragments] cover the fragment ids once, in
    order. *)
Lemma retrieve_fragments_eq self n disk :
  retrieve_fragments self n disk
  = let* retrieved := gather (retrieve_fragment self disk) (seq 0 n) in
    Ok (recovered_of (seq 0 n) retrieved).
Proof.
  unfold retrieve_fragments.
  destruct (batches_concat n (batch_size_for n)) as (m & -> & Hcat);
    [apply batch_size_for_pos|].
  rewrite bind_ok, for_each_fmap.
  set (f := retrieve_fragment self disk).
  rewrite (for_each_ext _
    (λ j acc,
       let* x := collect f (Py.range2 (j * batch_size_for n)
                   (Nat.min (j * batch_size_for n + batch_size_for n) n)) in
       Ok (acc ++ x))).
  2:{ intros j acc. unfold collect. by destruct (gather f _). }
  rewrite <-(for_each_fmap
    (λ j, Py.range2 (j * batch_size_for n)
            (Nat.min (j * batch_size_for n + batch_size_for n) n))
    (λ batch acc, let* x := collect f batch in Ok (acc ++ x))).
  rewrite for_each_collect, Hcat. unfold collect.
  by destruct (gather f (seq 0 n)).
Qed.

Lemma elem_of_recovered_of ids retrieved j d :
  (j, d) ∈ recovered_of ids retrieved ↔
  ∃ k, ids !! k = Some j ∧ retrieved !! k = Some (Some d).
Proof.
  unfold recovered_of. rewrite list_elem_of_omap. split.
  - intros ([j' [d'|]] & Hin & Heq); simplify_eq/=.
    apply list_elem_of_lookup in Hin as [k Hk].
    apply lookup_zip_with_Some in Hk as (a & b & ? & ? & ?). simplify_eq.
    eauto.
  - intros (k & Hi & Hr). exists (j, Some d). split; [|done].
    apply list_elem_of_lookup. exists k.
    apply lookup_zip_with_Some. eauto.
Qed.

(** The recovered fragments come out with strictly ascending ids. *)
Lemma recovered_of_seq_ascending start n retrieved :
  StronglySorted (λ a b, a.1 < b.1) (recovered_of (seq start n) retrieved)
  ∧ Forall (λ a, start ≤ a.1) (recovered_of (seq start n) retrieved).
Proof.
  unfold recovered_of. revert start retrieved.
  induction n as [|n IH]; intros start [|o rs]; simpl;
    try (split; constructor).
  destruct (IH (S start) rs) as [Hsorted Hbound].
  destruct o as [d|]; simpl.
  - split.
    + constructor; [done|]. eapply Forall_impl; [done|]. simpl. lia.
    + constructor; [simpl; lia|]. eapply Forall_impl; [done|]. simpl. lia.
  - split; [done|]. eapply Forall_impl; [done|]. simpl. lia.
Qed.

(** Sorting a list whose keys already ascend leaves it as it is. *)
Lemma sorted_ascending {A} (key : A → nat) (l : list A) :
  StronglySorted (λ a b, key a < key b) l → Py.sorted key l = l.
Proof.
  unfold Py.sorted. induction 1 as [|x l Hl IH Hx]; simpl; [done|].
  rewrite IH.
  destruct l as [|y l']; simpl; [done|].
  apply Forall_cons_1 in Hx as [Hxy _]. case_decide; [done|lia].
Qed.

Lemma parallel_reassemble_ascending (fragments : list (nat * bytes)) :
  StronglySorted (λ a b, a.1 < b.1) fragments →
  parallel_reassemble fragments = concat fragments.*2.
Proof.
  intros Hsorted. unfold parallel_reassemble.
  case_decide as Hnil; [by rewrite Hnil|].
  by rewrite (sorted_ascending fst).
Qed.

End retrieval.

(** ** The write path *)

Section write_path.
Context {lib : CryptoLib} `{!CryptoLibLaws lib}.
Implicit Types (self : AssemblyLine) (disk : filesystem) (i r : nat).

Lemma fragment_data_ok self data :
  self.(fragment_size) ≠ 0 →
  fragment_data self data (Some self.(fragment_size))
  = Ok (fragments_of self.(fragment_size) data)
  ∧ concat (fragments_of self.(fragment_size) data) = data.
Proof.
  intros HS. unfold fragment_data, fragments_of. simpl.
  destruct (range3_windows (length data) self.(fragment_size) HS)
    as (m & Hm & Hr).
  assert (m = (length data + (self.(fragment_size) - 1))
                `div` self.(fragment_size)) as <-.
  { unfold Py.range3 in Hr. case_decide; [done|]. simplify_eq.
    apply (f_equal length) in Hr. rewrite !length_fmap, !length_seq in Hr.
    rewrite Nat.sub_0_r in Hr. done. }
  rewrite Hr, bind_ok. split; [|by apply windows_concat].
  f_equal. rewrite <-list_fmap_compose. apply list_fmap_ext.
  intros _ j _. simpl. apply slice_window.
Qed.

Lemma encrypt_fragment_sync_ok (H : bytes) i r compressed :
  12 ≤ length H →
  encrypt_fragment_sync (i, compressed, H, r)
  = Ok (sealed {| dataset_checksum := H |} i r compressed).
Proof.
  intros HH. unfold encrypt_fragment_sync, sealed.
  pose proof (generate_key_accepted {| dataset_checksum := H |} i r
                (replicate 16 x00) HH) as Hacc.
  destruct (generate_key _ i r) as [key nonce].
  destruct Hacc as (-> & -> & _); [by rewrite length_replicate|].
  rewrite !bind_ok. simpl. by destruct (aes_gcm_encrypt key nonce compressed).
Qed.

Lemma encrypt_fragment_sync_inline_ok self i r compressed :
  12 ≤ length self.(kms).(dataset_checksum) →
  encrypt_fragment_sync_inline self i compressed r
  = Ok ((sealed self.(kms) i r compressed).1.1.2,
        (sealed self.(kms) i r compressed).1.2,
        (sealed self.(kms) i r compressed).2).
Proof.
  intros HH. unfold encrypt_fragment_sync_inline, sealed.
  pose proof (generate_key_accepted self.(kms) i r (replicate 16 x00) HH)
    as Hacc.
  destruct (generate_key _ i r) as [key nonce].
  destruct Hacc as (-> & -> & _); [by rewrite length_replicate|].
  rewrite !bind_ok. simpl. by destruct (aes_gcm_encrypt key nonce compressed).
Qed.

Lemma gather_replicas self (fragments : list bytes) start :
  12 ≤ length self.(kms).(dataset_checksum) →
  gather encrypt_fragment_sync
    (concat (imap (λ i fragment,
               (λ replica, (start + i, compress_data fragment,
                            self.(kms).(dataset_checksum), replica))
                 <$> Py.range2 0 self.(replication_factor))
             fragments))
  = Ok (concat (imap (λ i fragment,
               (λ replica, sealed self.(kms) (start + i) replica
                             (compress_data fragment))
                 <$> seq 0 self.(replication_factor))
             fragments)).
Proof.
  intros HH. revert start.
  induction fragments as [|f fragments IH]; intros start; [done|].
  rewrite !imap_cons. simpl concat. rewrite gather_app.
  rewrite (gather_ok _ (λ '(i, c, H, r), sealed {| dataset_checksum := H |} i r c)).
  2:{ intros [[[i c] H] r] Hin. apply list_elem_of_fmap in Hin as (r' & Heq & _).
      simplify_eq. by apply encrypt_fragment_sync_ok. }
  rewrite bind_ok.
  rewrite (imap_ext _ (λ i fragment,
             (λ replica, (S start + i, compress_data fragment,
                          self.(kms).(dataset_checksum), replica))
               <$> Py.range2 0 self.(replication_factor)))
    by (intros j x _; simpl; apply list_fmap_ext; intros _ r _;
        do 3 f_equal; lia).
  rewrite IH, bind_ok. f_equal. f_equal.
  - rewrite <-list_fmap_compose. unfold Py.range2. rewrite Nat.sub_0_r.
    apply list_fmap_ext. intros _ r _. simpl. by destruct self.(kms).
  - f_equal. apply imap_ext. intros j x _. simpl.
    apply list_fmap_ext. intros _ r _. f_equal. lia.
Qed.

Lemma encrypt_fragments_ok self fragments inline :
  12 ≤ length self.(kms).(dataset_checksum) →
  encrypt_fragments self fragments inline
  = Ok (stored_items self fragments inline).
Proof.
  intros HH. unfold encrypt_fragments, stored_items.
  destruct (inline && bool_decide (length fragments = 1)) eqn:Hfast.
  - apply andb_true_iff in Hfast as [_ Hone%bool_decide_eq_true].
    destruct fragments as [|f [|??]]; simplify_eq/=.
    by rewrite encrypt_fragment_sync_inline_ok.
  - exact (gather_replicas self fragments 0 HH).
Qed.

Lemma elem_of_replicas_of self fragments (item : encrypted) :
  item ∈ replicas_of self fragments ↔
  ∃ i fragment r,
    fragments !! i = Some fragment ∧ r < self.(replication_factor)
    ∧ item = sealed self.(kms) i r (compress_data fragment).
Proof.
  unfold replicas_of. rewrite list_elem_of_In, in_concat. split.
  - intros (row & Hrow & Hin).
    apply list_elem_of_In, elem_of_lookup_imap in Hrow as (i & f & -> & Hf).
    apply list_elem_of_In, list_elem_of_fmap in Hin as (r & -> & Hr).
    apply elem_of_seq in Hr. exists i, f, r. split_and!; [done|lia|done].
  - intros (i & f & r & Hf & Hr & ->). eexists. split.
    + apply list_elem_of_In, elem_of_lookup_imap. by exists i, f.
    + apply list_elem_of_In, list_elem_of_fmap. exists r. split; [done|].
      apply elem_of_seq. lia.
Qed.

(** Every stored tuple is the sealed compression of the fragment it
    names. *)
Lemma stored_items_sealed self fragments inline (item : encrypted) :
  item ∈ stored_items self fragments inline →
  ∃ i fragment r,
    fragments !! i = Some fragment
    ∧ item = sealed self.(kms) i r (compress_data fragment).
Proof.
  unfold stored_items. case_match.
  - destruct fragments as [|f ?]; [by intros ?%elem_of_nil|].
    intros ->%list_elem_of_singleton. by exists 0, f, 0.
  - intros (i & f & r & ? & _ & ?)%elem_of_replicas_of. eauto.
Qed.

(** The first replica of every fragment is among the stored tuples. *)
Lemma stored_items_first self fragments inline i fragment :
  0 < self.(replication_factor) → fragments !! i = Some fragment →
  sealed self.(kms) i 0 (compress_data fragment)
    ∈ stored_items self fragments inline.
Proof.
  intros HR Hf. unfold stored_items. case_match eqn:Hfast.
  - apply andb_true_iff in Hfast as [_ Hone%bool_decide_eq_true].
    destruct fragments as [|f [|??]]; simplify_eq/=.
    destruct i; simplify_eq/=. apply list_elem_of_singleton. done.
  - apply elem_of_replicas_of. by exists i, fragment, 0.
Qed.

(** On the replicated path every replica is. *)
Lemma stored_items_replica self fragments i fragment r :
  r < self.(replication_factor) → fragments !! i = Some fragment →
  sealed self.(kms) i r (compress_data fragment)
    ∈ stored_items self fragments false.
Proof.
  intros HR Hf. unfold stored_items. simpl.
  apply elem_of_replicas_of. by exists i, fragment, r.
Qed.

Lemma store_fragments_eq self (items : list encrypted) disk :
  self.(replication_factor) ≠ 0 →
  store_fragments self items disk = for_each (_store_fragment self) items disk.
Proof.
  intros HR. unfold store_fragments, Py.floordiv.
  case_decide; [done|]. rewrite bind_ok.
  apply for_each_windows.
  pose proof (batch_size_for_pos
                (length items `div` self.(replication_factor))). nia.
Qed.

Lemma _store_fragment_inv self (item : encrypted) disk disk' :
  _store_fragment self item disk = Ok disk' →
  ∃ path, store_path self item.1.1.1.1 item.1.1.1.2 = Ok path
          ∧ disk !! path ≠ Some Directory
          ∧ disk' = <[path := Regular (blob_of item)]> disk.
Proof.
  destruct item as [[[[i r] ct] tag] csum]. unfold _store_fragment. simpl.
  destruct (store_path self i r) as [path|]; [|done]. rewrite bind_ok.
  unfold fs.write. intros Hw. exists path.
  destruct (disk !! path) as [[?|]|]; simplify_eq; done.
Qed.

(** After the writes every written blob is in place, provided the tuples
    agree on each (fragment, replica) pair; other paths are untouched. *)
Lemma writes_in_place self (items : list encrypted) disk disk' :
  (∀ a b, a ∈ items → b ∈ items →
          a.1.1.1.1 = b.1.1.1.1 → a.1.1.1.2 = b.1.1.1.2 → a = b) →
  for_each (_store_fragment self) items disk = Ok disk' →
  (∀ item path, item ∈ items →
     store_path self item.1.1.1.1 item.1.1.1.2 = Ok path →
     disk' !! path = Some (Regular (blob_of item)))
  ∧ (∀ path,
       (∀ item, item ∈ items →
                store_path self item.1.1.1.1 item.1.1.1.2 ≠ Ok path) →
       disk' !! path = disk !! path).
Proof.
  revert disk'. induction items as [|last items IH] using rev_ind;
    intros disk' Hfun Hrun.
  - simpl in Hrun. simplify_eq. split; [by intros ?? ?%elem_of_nil|done].
  - rewrite for_each_app in Hrun.
    destruct (for_each (_store_fragment self) items disk) as [disk1|] eqn:H1;
      [|done].
    rewrite bind_ok in Hrun. simpl in Hrun.
    destruct (_store_fragment self last disk1) as [disk2|] eqn:H2; [|done].
    simpl in Hrun. simplify_eq.
    apply _store_fragment_inv in H2 as (plast & Hplast & _ & ->).
    destruct (IH disk1) as [IHin IHout]; [|done|].
    { intros a b Ha Hb. apply Hfun; apply elem_of_app; by left. }
    split.
    + intros item path Hitem Hpath.
      destruct (decide (path = plast)) as [->|Hne].
      * rewrite lookup_insert_eq.
        destruct (store_path_inj self _ _ _ _ _ Hpath Hplast) as [Hi Hr].
        rewrite (Hfun item last); [done|done| |done|done].
        apply elem_of_app. right. by apply list_elem_of_singleton.
      * rewrite lookup_insert_ne by done.
        apply elem_of_app in Hitem as [Hitem|Hitem]; [by apply IHin|].
        apply list_elem_of_singleton in Hitem as ->. congruence.
    + intros path Hout.
      rewrite lookup_insert_ne.
      * apply IHout. intros item Hitem. apply Hout, elem_of_app. by left.
      * intros ->. eapply Hout; [|done].
        apply elem_of_app. right. by apply list_elem_of_singleton.
Qed.

(** The writes go through when no target path holds a directory. *)
Lemma writes_total self (items : list encrypted) disk :
  self.(node_paths) ≠ [] →
  (∀ i r path, store_path self i r = Ok path → disk !! path ≠ Some Directory) →
  ∃ disk', for_each (_store_fragment self) items disk = Ok disk'.
Proof.
  intros Hnodes. revert disk.
  induction items as [|[[[[i r] ct] tag] csum] items IH]; intros disk Hdir;
    simpl; [by eexists|].
  destruct (store_path_ok self i r Hnodes) as (node & _ & Hp).
  rewrite Hp, bind_ok. unfold fs.write.
  specialize (Hdir _ _ _ Hp) as Hnd.
  assert (∀ (o : option inode) (k : filesystem → result filesystem),
            o ≠ Some Directory →
            (let* d := match o with
                       | Some Directory => Raise IsADirectoryError
                       | _ => Ok (<[os_path.join node (blob_name i r)
                                    := Regular (ct ++ tag ++ csum)]> disk)
                       end in k d)
            = k (<[os_path.join node (blob_name i r)
                   := Regular (ct ++ tag ++ csum)]> disk)) as Hstep.
  { intros [[?|]|] k Ho; done. }
  rewrite Hstep by done. apply IH.
  intros i' r' path Hpath. rewrite lookup_insert.
  case_decide; [done|]. by eapply Hdir.
Qed.

End write_path.

(** ** Store, then retrieve *)

Section round_trip.
Context {lib : CryptoLib} `{!CryptoLibLaws lib}.
Implicit Types (self : AssemblyLine) (disk : filesystem) (i r : nat).

Lemma sealed_ids (kms : KeyManagementSystem) i r c :
  (sealed kms i r c).1.1.1.1 = i ∧ (sealed kms i r c).1.1.1.2 = r.
Proof. done. Qed.

(** Reading back what was sealed gives the fragment. *)
Lemma blob_verdict_sealed (kms : KeyManagementSystem) i r fragment :
  12 ≤ length kms.(dataset_checksum) →
  blob_verdict kms i r (blob_of (sealed kms i r (compress_data fragment)))
  = Return fragment.
Proof.
  intros HH. unfold sealed, blob_of, blob_verdict.
  pose proof (generate_key_accepted kms i r (replicate 16 x00) HH) as Hacc.
  destruct (generate_key kms i r) as [key nonce]. simpl.
  destruct Hacc as (_ & _ & _ & Hkey & Hnonce); [by rewrite length_replicate|].
  pose proof (gcm_tag_length key nonce (compress_data fragment)) as Htag.
  pose proof (gcm_decrypt_encrypt key nonce (compress_data fragment)
                Hkey Hnonce) as Hdec.
  destruct (aes_gcm_encrypt key nonce (compress_data fragment)) as [ct tag].
  simpl in *.
  pose proof (sha256_length ct) as Hsum.
  destruct (slices_of_frame ct tag (calculate_checksum ct) Htag Hsum)
    as (Hct & Htg & Hcs).
  set (blob := ct ++ tag ++ calculate_checksum ct) in *.
  assert (48 ≤ length blob) as Hlen.
  { unfold blob. rewrite !length_app. unfold calculate_checksum. lia. }
  rewrite slice_drop_trailer in Hct by done.
  rewrite slice_tag in Htg by done.
  rewrite slice_checksum in Hcs by done.
  rewrite Hct, Htg, Hcs.
  case_decide; [lia|]. case_decide; [done|].
  unfold try_decrypt. rewrite Hdec. unfold decompress_data, compress_data.
  by rewrite zlib_decompress_compress.
Qed.

Lemma gather_indexed {B} (F : nat → result B) (l : list B) start :
  (∀ j b, l !! j = Some b → F (start + j) = Ok b) →
  gather F (seq start (length l)) = Ok l.
Proof.
  revert start. induction l as [|b l IH]; intros start HF; simpl; [done|].
  rewrite <-(Nat.add_0_r start) at 1. rewrite (HF 0 b) by done.
  rewrite bind_ok, IH; [done|].
  intros j b' Hj. replace (S start + j) with (start + S j) by lia.
  by apply HF.
Qed.

Lemma recovered_of_all (l : list bytes) start :
  (recovered_of (seq start (length l)) (Some <$> l)).*2 = l.
Proof.
  unfold recovered_of. revert start.
  induction l as [|b l IH]; intros start; simpl; [done|].
  f_equal. apply IH.
Qed.

(** What [store] leaves on disk: every tuple of [stored_items] sits at its
    path, whatever was there before. *)
Lemma store_in_place self data inline disk n disk' :
  self.(replication_factor) ≠ 0 → self.(fragment_size) ≠ 0 →
  12 ≤ length self.(kms).(dataset_checksum) →
  store self data inline disk = Ok (n, disk') →
  let fragments := fragments_of self.(fragment_size) data in
  n = length fragments
  ∧ ∀ item path,
      item ∈ stored_items self fragments inline →
      store_path self item.1.1.1.1 item.1.1.1.2 = Ok path →
      disk' !! path = Some (Regular (blob_of item)).
Proof.
  intros HR HS HH. unfold store.
  destruct (fragment_data_ok self data HS) as [-> _].
  rewrite bind_ok, encrypt_fragments_ok, bind_ok, store_fragments_eq by done.
  destruct (for_each _ _ disk) as [disk1|] eqn:Hrun; [|done].
  rewrite bind_ok. intros [= <- <-]. split; [done|].
  eapply writes_in_place; [|done].
  intros a b (ia & fa & ra & Hfa & ->)%stored_items_sealed
               (ib & fb & rb & Hfb & ->)%stored_items_sealed.
  simpl. intros <- <-. congruence.
Qed.

Lemma store_total self data inline disk :
  self.(replication_factor) ≠ 0 → self.(fragment_size) ≠ 0 →
  self.(node_paths) ≠ [] →
  12 ≤ length self.(kms).(dataset_checksum) →
  (∀ i r path, store_path self i r = Ok path → disk !! path ≠ Some Directory) →
  ∃ disk',
    store self data inline disk
    = Ok (length (fragments_of self.(fragment_size) data), disk').
Proof.
  intros HR HS Hnodes HH Hdir. unfold store.
  destruct (fragment_data_ok self data HS) as [-> _].
  rewrite bind_ok, encrypt_fragments_ok, bind_ok, store_fragments_eq by done.
  destruct (writes_total self
              (stored_items self (fragments_of self.(fragment_size) data) inline)
              disk Hnodes Hdir) as [disk' ->].
  by exists disk'.
Qed.

(** A fragment whose first replica is in place is recovered from it. *)
Lemma retrieve_fragment_stored self disk i fragment path :
  self.(replication_factor) ≠ 0 →
  12 ≤ length self.(kms).(dataset_checksum) →
  store_path self i 0 = Ok path →
  disk !! path
  = Some (Regular (blob_of (sealed self.(kms) i 0 (compress_data fragment)))) →
  retrieve_fragment self disk i = Ok (Some fragment).
Proof.
  intros HR HH Hp Hd. apply retrieve_fragment_first; [lia|].
  erewrite probe_replica_regular by done.
  by rewrite blob_verdict_sealed.
Qed.

End round_trip.

(** ** The stand-in library obeys the laws *)

Lemma toy_pad_length n d : length (Toy.pad n d) = n.
Proof.
  unfold Toy.pad. rewrite length_take, length_app, length_replicate. lia.
Qed.

Lemma toy_laws : CryptoLibLaws Toy.lib.
Proof.
  split; simpl.
  - intros d. apply toy_pad_length.
  - intros n salt it km. apply toy_pad_length.
  - intros key nonce pt. apply toy_pad_length.
  - intros key nonce pt _ _. rewrite rev_involutive. by case_decide.
  - done.
Qed.

(** * The claims *)

(** ** Sizer *)

(** C6, as stated, fails: the second and third thresholds of
    [optimal_fragment_size] are 1024 * 1000 and 1024 * 10000 bytes, so a
    payload of exactly 1 MiB (1048576 bytes) is above the second one and
    gets fragments of 100 KiB, not 50 KiB. *)
Lemma C6_counterexample :
  (102400 < 1048576 ≤ 1048576)%Z
  ∧ optimal_fragment_size 1048576 ≠ (50 * 1024)%Z
  ∧ optimal_fragment_size 1048576 = (100 * 1024)%Z
  ∧ (1048576 < 10485760 ≤ 10485760)%Z
  ∧ optimal_fragment_size 10485760 ≠ (100 * 1024)%Z
  ∧ optimal_fragment_size 10485760 = (200 * 1024)%Z.
Proof. vm_compute. split_and!; congruence. Qed.

(** C6, amended: [optimal_fragment_size N] is [N] up to 100 KiB (102400
    bytes), 50 KiB above that up to 1000 KiB (1024000 bytes), 100 KiB above
    that up to 10000 KiB (10240000 bytes), and 200 KiB beyond. *)
Theorem C6_optimal_fragment_size (N : Z) :
  ((N ≤ 102400)%Z → optimal_fragment_size N = N)
  ∧ ((102400 < N ≤ 1024000)%Z → optimal_fragment_size N = (50 * 1024)%Z)
  ∧ ((1024000 < N ≤ 10240000)%Z → optimal_fragment_size N = (100 * 1024)%Z)
  ∧ ((10240000 < N)%Z → optimal_fragment_size N = (200 * 1024)%Z).
Proof.
  rewrite optimal_fragment_size_cases.
  split_and!; intros; repeat case_decide; lia.
Qed.

(** ** Key derivation *)

Section key_claims.
Context {lib : CryptoLib}.

(** C4, as stated, fails: the seed holds the [repr] of the checksum bytes,
    not their hexadecimal digits.  For the checksum of 32 zero bytes,
    fragment 0 and replica 0, the seed and the nonce both differ from the
    ones the hexadecimal seed would give. *)
Lemma C4_counterexample :
  let H := replicate 32 x00 in
  let kms := {| dataset_checksum := H |} in
  key_seed kms 0 0 ≠ spec_seed H 0 0
  ∧ Py.slice (key_seed kms 0 0) None (Some 12%Z)
    ≠ Py.slice (spec_seed H 0 0) None (Some 12%Z)
  ∧ Py.slice (key_seed kms 0 0) None (Some 12%Z) = Py.encode "0:b'\x00\x00"
  ∧ Py.slice (spec_seed H 0 0) None (Some 12%Z) = Py.encode "0:0000000000".
Proof. vm_compute. split_and!; congruence. Qed.

(** C4, amended: for a 32-byte checksum [H], the seed is the encoding of
    [str(i) + ":" + repr(H) + ":" + str(r)], with [repr(H)] the rendering of
    the bytes object as a literal; the key is PBKDF2-HMAC-SHA256 of the seed
    with the first 16 bytes of the seed as salt, 100000 iterations and 32
    bytes of output; the nonce is the first 12 bytes of the seed. *)
Theorem C4_generate_key `{!CryptoLibLaws lib} (H : bytes) (i r : nat) :
  length H = 32 →
  let seed :=
    Py.encode (Py.str_int i +:+ ":" +:+ Py.repr_bytes H +:+ ":"
               +:+ Py.str_int r) in
  generate_key {| dataset_checksum := H |} i r
  = (pbkdf2_hmac_sha256 32 (take 16 seed) 100000 seed, take 12 seed)
  ∧ length (take 16 seed) = 16
  ∧ length (take 12 seed) = 12
  ∧ length (generate_key {| dataset_checksum := H |} i r).1 = 32.
Proof.
  intros HH seed. set (kms := {| dataset_checksum := H |}).
  assert (seed = key_seed kms i r) as Hseed by done.
  assert (36 ≤ length seed) as Hlen.
  { rewrite Hseed, key_seed_split, length_app.
    pose proof (seed_head_length kms i). simpl in *. lia. }
  unfold generate_key. rewrite <-Hseed.
  change 16%Z with (Z.of_nat 16). change 12%Z with (Z.of_nat 12).
  rewrite !slice_prefix. simpl.
  rewrite pbkdf2_length, !length_take. split_and!; [done|lia..|done].
Qed.

(** C10: for a checksum of 32 bytes the replica id lies beyond the first 12
    (and the first 16) bytes of the seed, so all replicas of a fragment get
    one and the same 12-byte nonce, and one salt; the key depends on the
    replica through the key material, the whole seed, only. *)
Theorem C10_nonce_shared_by_replicas (kms : KeyManagementSystem) (i : nat) :
  length kms.(dataset_checksum) = 32 →
  let head := Py.encode (Py.str_int i +:+ ":"
                         +:+ Py.repr_bytes kms.(dataset_checksum)) in
  12 ≤ length head
  ∧ length (take 12 head) = 12
  ∧ (∀ r, key_seed kms i r = head ++ Py.encode (":" +:+ Py.str_int r))
  ∧ (∀ r, (generate_key kms i r).2 = take 12 head)
  ∧ (∀ r r', (generate_key kms i r).2 = (generate_key kms i r').2)
  ∧ (∀ r, (generate_key kms i r).1
          = pbkdf2_hmac_sha256 32 (take 16 head) 100000 (key_seed kms i r)).
Proof.
  intros HH head. pose proof (seed_head_length kms i) as Hlen.
  change (seed_head kms i) with head in Hlen.
  split_and!.
  - lia.
  - rewrite length_take. lia.
  - intros r. apply key_seed_split.
  - intros r. by rewrite generate_key_eq by lia.
  - intros r r'. by rewrite !generate_key_eq by lia.
  - intros r. by rewrite generate_key_eq by lia.
Qed.

End key_claims.

Lemma C4_generate_key_witness :
  generate_key (lib := Toy.lib) {| dataset_checksum := replicate 32 x00 |} 3 1
  = (pbkdf2_hmac_sha256 (CryptoLib := Toy.lib) 32
       (Py.encode "3:b'\x00\x00\x00\x") 100000
       (Py.encode ("3:" +:+ Py.repr_bytes (replicate 32 x00) +:+ ":1")),
     Py.encode "3:b'\x00\x00").
Proof.
  exact (proj1 (C4_generate_key (lib := Toy.lib) (CryptoLibLaws0 := toy_laws)
                  (replicate 32 x00) 3 1 eq_refl)).
Defined.

Lemma C10_nonce_shared_by_replicas_witness :
  (generate_key (lib := Toy.lib) Toy.line.(kms) 1 0).2
  = (generate_key (lib := Toy.lib) Toy.line.(kms) 1 1).2.
Proof.
  refine (proj1 (proj2 (proj2 (proj2 (proj2
    (C10_nonce_shared_by_replicas (lib := Toy.lib) Toy.line.(kms) 1 _))))) 0 1).
  vm_compute. reflexivity.
Defined.

(** ** Placement *)

(** C5, as stated, fails: the blob file carries the extension [.pkl].
    After storing on the three benchmark nodes, nothing exists under the
    name without the extension, and the blob of fragment 0, replica 0 is
    the file [fragment_0_replica_0.pkl] of the first node. *)
Lemma C5_counterexample :
  store_path Toy.line 0 0
  ≠ Ok (os_path.join "data/node1" "fragment_0_replica_0")
  ∧ store_path Toy.line 0 0 = Ok "data/node1/fragment_0_replica_0.pkl"
  ∧ Toy.stored !! "data/node1/fragment_0_replica_0" = None
  ∧ is_Some (Toy.stored !! "data/node1/fragment_0_replica_0.pkl").
Proof. vm_compute. split_and!; [congruence|done|done|eauto]. Qed.

Section placement_claims.
Context {lib : CryptoLib}.

(** C5, amended: with at least one node, the producer writes the blob of
    fragment [i], replica [r] to the file named
    [fragment_{i}_replica_{r}.pkl] joined to the node directory
    [nodes[(i * R + r) mod M]], and the consumer probes that same path. *)
Theorem C5_placement (self : AssemblyLine) (i r : nat) :
  1 ≤ length self.(node_paths) →
  ∃ node_path,
    self.(node_paths) !! ((i * self.(replication_factor) + r)
                          `mod` length self.(node_paths)) = Some node_path
    ∧ let path :=
        os_path.join node_path
          ("fragment_" +:+ Py.str_int i +:+ "_replica_" +:+ Py.str_int r
           +:+ ".pkl") in
      store_path self i r = Ok path
      ∧ probe_path self i r = Ok path
      ∧ (∀ disk ct tag csum,
           disk !! path ≠ Some Directory →
           _store_fragment self (i, r, ct, tag, csum) disk
           = Ok (<[path := Regular (ct ++ tag ++ csum)]> disk))
      ∧ (∀ disk, disk !! path = None →
           probe_replica self disk i r = Ok (Continue replica_missing)).
Proof.
  intros HM.
  destruct (store_path_ok self i r) as (node & Hnode & Hp).
  { destruct self.(node_paths); simpl in *; [lia|done]. }
  exists node. split; [done|]. simpl. split_and!.
  - done.
  - by rewrite probe_path_store_path.
  - intros disk ct tag csum Hd. unfold _store_fragment.
    rewrite Hp, bind_ok. unfold fs.write.
    by destruct (disk !! _) as [[?|]|].
  - intros disk Hd. by eapply probe_replica_missing.
Qed.

End placement_claims.

Lemma C5_placement_witness :
  store_path Toy.line 1 1 = Ok "data/node1/fragment_1_replica_1.pkl"
  ∧ probe_path Toy.line 1 1 = Ok "data/node1/fragment_1_replica_1.pkl".
Proof.
  destruct (C5_placement (lib := Toy.lib) Toy.line 1 1) as (node & Hnode & H);
    [vm_compute; lia|].
  vm_compute in Hnode. injection Hnode as <-.
  destruct H as (Hs & Hp & _). split; [exact Hs|exact Hp].
Defined.

(** ** Decoding one replica *)

Section decode_claims.
Context {lib : CryptoLib} `{!CryptoLibLaws lib}.

(** C7: a replica read from a regular file is checked in this order.  A
    blob shorter than 48 bytes is rejected as incomplete.  Otherwise the
    blob splits into ciphertext, 16-byte tag and 32-byte checksum; a
    checksum that differs from the checksum of the ciphertext rejects the
    replica; otherwise AES-GCM decryption under the derived key and nonce
    with the tag either fails, which rejects the replica, or yields the
    compressed plaintext.  A replica is recovered only if the length check,
    the checksum comparison and the decryption all passed. *)
Theorem C7_decode_order (self : AssemblyLine) (disk : filesystem)
    (i r : nat) (path : string) (blob : bytes) :
  length self.(kms).(dataset_checksum) = 32 →
  store_path self i r = Ok path →
  disk !! path = Some (Regular blob) →
  let ciphertext := take (length blob - 48) blob in
  let tag := take 16 (drop (length blob - 48) blob) in
  let csum := drop (length blob - 32) blob in
  let key := (generate_key self.(kms) i r).1 in
  let nonce := (generate_key self.(kms) i r).2 in
  (length blob < 48 →
   probe_replica self disk i r = Ok (Continue data_incomplete))
  ∧ (48 ≤ length blob →
     Py.slice blob None (Some (-48)%Z) = ciphertext
     ∧ Py.slice blob (Some (-48)%Z) (Some (-32)%Z) = tag
     ∧ Py.slice blob (Some (-32)%Z) None = csum)
  ∧ (48 ≤ length blob → calculate_checksum ciphertext ≠ csum →
     probe_replica self disk i r = Ok (Continue checksum_mismatch))
  ∧ (48 ≤ length blob → calculate_checksum ciphertext = csum →
     aes_gcm_decrypt key nonce tag ciphertext = None →
     probe_replica self disk i r = Ok (Continue decryption_failed))
  ∧ (∀ compressed,
       48 ≤ length blob → calculate_checksum ciphertext = csum →
       aes_gcm_decrypt key nonce tag ciphertext = Some compressed →
       probe_replica self disk i r
       = Ok (match decompress_data compressed with
             | Some fragment => Return fragment
             | None => Continue decryption_failed
             end))
  ∧ (∀ fragment,
       probe_replica self disk i r = Ok (Return fragment) →
       48 ≤ length blob
       ∧ calculate_checksum ciphertext = csum
       ∧ ∃ compressed,
           aes_gcm_decrypt key nonce tag ciphertext = Some compressed
           ∧ decompress_data compressed = Some fragment).
Proof.
  intros HH Hp Hd ciphertext tag csum key nonce.
  rewrite (probe_replica_regular self disk i r path blob) by (done || lia).
  unfold blob_verdict. fold ciphertext tag csum key nonce.
  split_and!.
  - intros. by case_decide.
  - intros. by rewrite slice_drop_trailer, slice_tag, slice_checksum.
  - intros. case_decide; [lia|]. case_decide; [done|congruence].
  - intros ? ? Hdec. case_decide; [lia|]. case_decide; [congruence|].
    unfold try_decrypt. by rewrite Hdec.
  - intros c ? ? Hdec. case_decide; [lia|]. case_decide; [congruence|].
    unfold try_decrypt. by rewrite Hdec.
  - intros d. case_decide; [done|]. case_decide; [done|].
    unfold try_decrypt.
    destruct (aes_gcm_decrypt key nonce tag ciphertext) as [c|] eqn:Hdec;
      [|done].
    destruct (decompress_data c) as [d'|] eqn:Hz; [|done].
    intros [= <-]. split_and!; [lia|done|eauto].
Qed.

End decode_claims.

Lemma C7_decode_order_witness :
  probe_replica (lib := Toy.lib) Toy.line Toy.stored 1 0 = Ok (Return [x03]).
Proof.
  assert (∃ blob, Toy.stored !! "data/node3/fragment_1_replica_0.pkl"
                  = Some (Regular blob) ∧ 48 ≤ length blob) as (blob & Hd & Hlen).
  { vm_compute. eexists. split; [reflexivity|]. vm_compute. lia. }
  pose proof (C7_decode_order (lib := Toy.lib) (CryptoLibLaws0 := toy_laws)
                Toy.line Toy.stored 1 0 _ blob
                ltac:(vm_compute; reflexivity) ltac:(vm_compute; reflexivity) Hd)
    as (_ & _ & _ & _ & Hok & _).
  vm_compute in Hd. injection Hd as <-.
  refine (Hok [x78; x03] Hlen _ _); vm_compute; reflexivity.
Defined.

(** ** Store and retrieve *)

Section store_claims.
Context {lib : CryptoLib} `{!CryptoLibLaws lib}.
Implicit Types (self : AssemblyLine) (disk : filesystem).

(** C1: round trip.  With a replication factor, a node count and a fragment
    size of at least one, a 32-byte payload checksum (the checksum of the
    payload is one) and no directory in the way of a blob, storing a payload
    of any length succeeds, yields the fragment count [F = ceil(N / S)] and
    leaves a disk from which retrieval with that count returns exactly the
    payload.  This holds on the replicated path and on the inline one, and
    for every length, the range up to 10 MiB included. *)
Theorem C1_round_trip self (data : bytes) (inline : bool) disk :
  1 ≤ self.(replication_factor) →
  1 ≤ length self.(node_paths) →
  1 ≤ self.(fragment_size) →
  length self.(kms).(dataset_checksum) = 32 →
  (∀ i r path, store_path self i r = Ok path → disk !! path ≠ Some Directory) →
  let F := (length data + (self.(fragment_size) - 1))
             `div` self.(fragment_size) in
  ∃ disk',
    store self data inline disk = Ok (F, disk')
    ∧ retrieve self F disk' = Ok data.
Proof.
  intros HR HM HS HH Hdir F.
  assert (self.(node_paths) ≠ []) as Hnodes
    by (destruct self.(node_paths); simpl in *; [lia|done]).
  set (fragments := fragments_of self.(fragment_size) data).
  assert (F = length fragments) as HF
    by (unfold fragments, fragments_of; by rewrite length_fmap, length_seq).
  destruct (store_total self data inline disk) as [disk' Hstore];
    [lia..|done|lia|done|].
  exists disk'. fold fragments in Hstore. rewrite HF. split; [done|].
  destruct (store_in_place self data inline disk (length fragments) disk')
    as [_ Hplace]; [lia..|done|].
  fold fragments in Hplace.
  destruct (fragment_data_ok self data) as [_ Hcat]; [lia|].
  fold fragments in Hcat.
  unfold retrieve. rewrite retrieve_fragments_eq.
  rewrite <-(length_fmap Some fragments).
  rewrite (gather_indexed _ (Some <$> fragments) 0).
  - rewrite bind_ok, length_fmap, bind_ok. f_equal.
    rewrite parallel_reassemble_ascending
      by apply recovered_of_seq_ascending.
    by rewrite recovered_of_all.
  - intros j o Hj. apply list_lookup_fmap_Some in Hj as (f & -> & Hf). simpl.
    destruct (store_path_ok self j 0 Hnodes) as (node & _ & Hp).
    eapply retrieve_fragment_stored; [lia|lia|done|].
    apply (Hplace (sealed self.(kms) j 0 (compress_data f))); [|done].
    apply stored_items_first; [lia|done].
Qed.

(** C8: the write path is deterministic.  Two runs of [store] of one
    payload under one configuration, started from any two disks, report the
    same fragment count and leave, at the path of every replica they write,
    the same blob: the tuple [encrypt_fragment_sync] computes from the
    checksum, the fragment id, the replica id and the compressed fragment
    alone.  (Every replica is written on the replicated path, replica 0 on
    the inline one.) *)
Theorem C8_deterministic_blobs self (data : bytes) (inline : bool)
    disk1 disk2 n1 n2 disk1' disk2' :
  1 ≤ self.(replication_factor) →
  1 ≤ self.(fragment_size) →
  length self.(kms).(dataset_checksum) = 32 →
  store self data inline disk1 = Ok (n1, disk1') →
  store self data inline disk2 = Ok (n2, disk2') →
  n1 = n2
  ∧ ∀ i fragment r path,
      fragments_of self.(fragment_size) data !! i = Some fragment →
      r < self.(replication_factor) →
      inline = false ∨ r = 0 →
      store_path self i r = Ok path →
      encrypt_fragment_sync
        (i, compress_data fragment, self.(kms).(dataset_checksum), r)
      = Ok (sealed self.(kms) i r (compress_data fragment))
      ∧ disk1' !! path
        = Some (Regular (blob_of (sealed self.(kms) i r (compress_data fragment))))
      ∧ disk2' !! path = disk1' !! path.
Proof.
  intros HR HS HH Hs1 Hs2.
  apply store_in_place in Hs1 as [-> H1]; [|lia..].
  apply store_in_place in Hs2 as [-> H2]; [|lia..].
  split; [done|]. intros i f r path Hf Hr Hcase Hp.
  assert (sealed self.(kms) i r (compress_data f)
            ∈ stored_items self (fragments_of self.(fragment_size) data) inline)
    as Hin.
  { destruct Hcase as [->| ->].
    - by apply stored_items_replica.
    - apply stored_items_first; [lia|done]. }
  split_and!.
  - rewrite encrypt_fragment_sync_ok by lia. by destruct self.(kms).
  - by apply (H1 _ _ Hin).
  - by rewrite (H1 _ _ Hin), (H2 _ _ Hin).
Qed.

(** C2, evaluated on the code: on the inline fast path [store] writes the
    blob of replica 0 only; the path of every other replica of fragment 0
    keeps what it held before, so it stays absent on nodes that start
    empty. *)
Theorem C2_inline_writes_one_replica self (data : bytes) disk n disk' :
  1 ≤ self.(replication_factor) →
  1 ≤ self.(fragment_size) →
  length self.(kms).(dataset_checksum) = 32 →
  length (fragments_of self.(fragment_size) data) = 1 →
  store self data true disk = Ok (n, disk') →
  n = 1
  ∧ (∀ path, store_path self 0 0 = Ok path → is_Some (disk' !! path))
  ∧ (∀ r path, r ≠ 0 → store_path self 0 r = Ok path →
               disk' !! path = disk !! path).
Proof.
  intros HR HS HH Hone. unfold store.
  destruct (fragment_data_ok self data) as [-> _]; [lia|].
  rewrite bind_ok, encrypt_fragments_ok, bind_ok, store_fragments_eq by lia.
  destruct (fragments_of self.(fragment_size) data) as [|f [|??]];
    try discriminate Hone.
  change (stored_items self [f] true)
    with [sealed self.(kms) 0 0 (compress_data f)].
  change (for_each ?body [?x] disk) with (let* s := body x disk in Ok s).
  destruct (_store_fragment self (sealed self.(kms) 0 0 (compress_data f)) disk)
    as [disk1|] eqn:Hw; [|done].
  rewrite !bind_ok. intros [= <- <-].
  apply _store_fragment_inv in Hw as (p0 & Hp0 & _ & ->).
  destruct (sealed_ids self.(kms) 0 0 (compress_data f)) as [Hi Hr].
  rewrite Hi, Hr in Hp0.
  split_and!; [done| |].
  - intros path Hp. rewrite Hp in Hp0. simplify_eq.
    rewrite lookup_insert_eq. eauto.
  - intros r path Hne Hp. rewrite lookup_insert_ne; [done|].
    intros ->. destruct (store_path_inj self _ _ _ _ _ Hp0 Hp). done.
Qed.

End store_claims.

Lemma C1_round_trip_witness :
  ∃ disk',
    store (lib := Toy.lib) Toy.line Toy.payload false ∅ = Ok (2, disk')
    ∧ retrieve (lib := Toy.lib) Toy.line 2 disk' = Ok Toy.payload.
Proof.
  apply (C1_round_trip (lib := Toy.lib) (CryptoLibLaws0 := toy_laws)
           Toy.line Toy.payload false ∅).
  - vm_compute. lia.
  - vm_compute. lia.
  - vm_compute. lia.
  - vm_compute. reflexivity.
  - intros i r path _. by rewrite lookup_empty.
Defined.

Lemma C8_deterministic_blobs_witness :
  ∃ blob,
    Toy.stored !! "data/node1/fragment_1_replica_1.pkl" = Some (Regular blob)
    ∧ ∀ n disk',
        store (lib := Toy.lib) Toy.line Toy.payload false
          {[ "data/node1/fragment_1_replica_1.pkl" := Regular [] ]}
        = Ok (n, disk') →
        disk' !! "data/node1/fragment_1_replica_1.pkl" = Some (Regular blob).
Proof.
  eexists. split; [vm_compute; reflexivity|]. intros n disk' Hstore.
  destruct (C8_deterministic_blobs (lib := Toy.lib) (CryptoLibLaws0 := toy_laws)
              Toy.line Toy.payload false ∅
              {[ "data/node1/fragment_1_replica_1.pkl" := Regular [] ]}
              2 n Toy.stored disk')
    as [_ Hblobs].
  - vm_compute. lia.
  - vm_compute. lia.
  - vm_compute. reflexivity.
  - vm_compute. reflexivity.
  - exact Hstore.
  - destruct (Hblobs 1 [x03] 1 "data/node1/fragment_1_replica_1.pkl")
      as (_ & H1 & H2).
    + vm_compute. reflexivity.
    + vm_compute. lia.
    + by left.
    + vm_compute. reflexivity.
    + rewrite H2. vm_compute. reflexivity.
Defined.

Lemma C2_inline_writes_one_replica_witness :
  ∃ disk',
    store (lib := Toy.lib) (new_AssemblyLine Toy.nodes (replicate 32 x00) 1 2)
      [x00] true ∅ = Ok (1, disk')
    ∧ is_Some (disk' !! "data/node1/fragment_0_replica_0.pkl")
    ∧ disk' !! "data/node2/fragment_0_replica_1.pkl" = None.
Proof.
  set (self := new_AssemblyLine Toy.nodes (replicate 32 x00) 1 2).
  destruct (store (lib := Toy.lib) self [x00] true ∅) as [[n disk']|e] eqn:Hs;
    [|vm_compute in Hs; discriminate].
  destruct (C2_inline_writes_one_replica (lib := Toy.lib)
              (CryptoLibLaws0 := toy_laws) self [x00] ∅ n disk')
    as (-> & H0 & H1).
  - vm_compute. lia.
  - vm_compute. lia.
  - vm_compute. reflexivity.
  - vm_compute. reflexivity.
  - exact Hs.
  - exists disk'. split_and!; [done| |].
    + apply H0. vm_compute. reflexivity.
    + rewrite (H1 1); [apply lookup_empty|done|vm_compute; reflexivity].
Defined.

(** ** Lost and rejected replicas *)

(** C9, as stated, fails for a failure of the read itself: the [open] and
    [read] of the replica loop sit outside its [try], so a path that exists
    and cannot be read makes the whole retrieval raise, even though the
    next replica is intact. *)
Lemma C9_counterexample :
  let disk :=
    <["data/node1/fragment_0_replica_0.pkl" := Directory]> Toy.stored in
  probe_replica (lib := Toy.lib) Toy.line disk 0 1 = Ok (Return [x01; x02])
  ∧ probe_replica (lib := Toy.lib) Toy.line disk 0 0 = Raise IsADirectoryError
  ∧ retrieve_fragment (lib := Toy.lib) Toy.line disk 0 = Raise IsADirectoryError
  ∧ retrieve_fragments (lib := Toy.lib) Toy.line 2 disk
    = Raise IsADirectoryError
  ∧ retrieve (lib := Toy.lib) Toy.line 2 disk = Raise IsADirectoryError.
Proof. vm_compute. split_and!; reflexivity. Qed.

(** C3, as stated, fails: the result of retrieval has no list of missing
    ids.  [retrieve_fragments] returns the recovered pairs only and the
    reassembled payload is bare bytes: over a payload of two equal one-byte
    fragments, losing fragment 0 and losing fragment 1 give the same
    retrieval result. *)
Lemma C3_counterexample :
  let diskA := Toy.twin_lose 0 Toy.twin_stored in
  let diskB := Toy.twin_lose 1 Toy.twin_stored in
  retrieve_fragment (lib := Toy.lib) Toy.twin_line diskA 0 = Ok None
  ∧ retrieve_fragment (lib := Toy.lib) Toy.twin_line diskA 1 = Ok (Some [x01])
  ∧ retrieve_fragment (lib := Toy.lib) Toy.twin_line diskB 0 = Ok (Some [x01])
  ∧ retrieve_fragment (lib := Toy.lib) Toy.twin_line diskB 1 = Ok None
  ∧ retrieve_fragments (lib := Toy.lib) Toy.twin_line 2 diskA = Ok [(1, [x01])]
  ∧ retrieve (lib := Toy.lib) Toy.twin_line 2 diskA = Ok [x01]
  ∧ retrieve (lib := Toy.lib) Toy.twin_line 2 diskB = Ok [x01].
Proof. vm_compute. split_and!; reflexivity. Qed.

Section recovery_claims.
Context {lib : CryptoLib} `{!CryptoLibLaws lib}.
Implicit Types (self : AssemblyLine) (disk : filesystem).

Lemma blob_verdict_rejected (kms : KeyManagementSystem) (i r : nat)
    (blob : bytes) :
  let ciphertext := take (length blob - 48) blob in
  let tag := take 16 (drop (length blob - 48) blob) in
  let csum := drop (length blob - 32) blob in
  let key := (generate_key kms i r).1 in
  let nonce := (generate_key kms i r).2 in
  length blob < 48
  ∨ csum ≠ calculate_checksum ciphertext
  ∨ aes_gcm_decrypt key nonce tag ciphertext = None
  ∨ (∃ compressed,
       aes_gcm_decrypt key nonce tag ciphertext = Some compressed
       ∧ decompress_data compressed = None) →
  ∃ why, blob_verdict kms i r blob = Continue why.
Proof.
  intros ciphertext tag csum key nonce Hcases. unfold blob_verdict.
  fold ciphertext tag csum key nonce.
  case_decide; [by eexists|]. case_decide; [by eexists|].
  unfold try_decrypt.
  destruct Hcases as [?|[?|[->|(c & -> & ->)]]]; try done; by eexists.
Qed.

Lemma retrieve_fragments_total self disk F :
  self.(node_paths) ≠ [] → 12 ≤ length self.(kms).(dataset_checksum) →
  (∀ j, j < F → readable self disk j) →
  ∃ retrieved,
    gather (retrieve_fragment self disk) (seq 0 F) = Ok retrieved
    ∧ retrieve_fragments self F disk = Ok (recovered_of (seq 0 F) retrieved).
Proof.
  intros Hnodes HH Hread.
  destruct (gather_total (retrieve_fragment self disk) (seq 0 F))
    as [retrieved Hg].
  { intros j Hj%elem_of_seq. apply retrieve_fragment_total; [done..|].
    apply Hread. lia. }
  exists retrieved. split; [done|].
  by rewrite retrieve_fragments_eq, Hg.
Qed.

(** C9, amended: a replica whose file is missing, whose blob is shorter
    than 48 bytes, whose checksum does not match, whose decryption fails or
    whose decompression fails makes the replica loop go on with the next
    replica; and when the nodes are not empty, the checksum has 32 bytes
    and no read of a blob path fails (none holds a directory),
    [retrieve_fragments] returns and does not raise. *)
Theorem C9_replica_errors_recovered self disk (F : nat) :
  1 ≤ length self.(node_paths) →
  length self.(kms).(dataset_checksum) = 32 →
  (∀ j, j < F → readable self disk j) →
  (∃ fragments, retrieve_fragments self F disk = Ok fragments)
  ∧ ∀ (i r : nat) (rest : list nat) (path : string),
      store_path self i r = Ok path →
      (disk !! path = None
       ∨ ∃ blob,
           disk !! path = Some (Regular blob)
           ∧ let ciphertext := take (length blob - 48) blob in
             let tag := take 16 (drop (length blob - 48) blob) in
             let csum := drop (length blob - 32) blob in
             let key := (generate_key self.(kms) i r).1 in
             let nonce := (generate_key self.(kms) i r).2 in
             length blob < 48
             ∨ csum ≠ calculate_checksum ciphertext
             ∨ aes_gcm_decrypt key nonce tag ciphertext = None
             ∨ (∃ compressed,
                  aes_gcm_decrypt key nonce tag ciphertext = Some compressed
                  ∧ decompress_data compressed = None)) →
      retrieve_fragment_loop self disk i (r :: rest)
      = retrieve_fragment_loop self disk i rest.
Proof.
  intros HM HH Hread.
  assert (self.(node_paths) ≠ []) as Hnodes
    by (destruct self.(node_paths); simpl in *; [lia|done]).
  split.
  - destruct (retrieve_fragments_total self disk F) as (retrieved & _ & ->);
      [done|lia|done|]. by eexists.
  - intros i r rest path Hp Hcases.
    assert (∃ why, probe_replica self disk i r = Ok (Continue why))
      as [why Hprobe].
    { destruct Hcases as [Hd|(blob & Hd & Hblob)].
      - eexists. by eapply probe_replica_missing.
      - destruct (blob_verdict_rejected self.(kms) i r blob Hblob)
          as [why Hwhy].
        exists why. erewrite probe_replica_regular by (done || lia).
        by rewrite Hwhy. }
    change (retrieve_fragment_loop self disk i (r :: rest))
      with (let* v := probe_replica self disk i r in
            match v with
            | Continue _ => retrieve_fragment_loop self disk i rest
            | Return d => Ok (Some d)
            end).
    by rewrite Hprobe.
Qed.

(** C3, amended: if every replica of fragment [i] is rejected (and no blob
    path holds a directory), retrieval returns the recovered
    (id, fragment) pairs only: [i] is not among their ids, the pairs are
    exactly the fragments below [F] that some replica yields, their ids
    strictly ascend, and the reassembled payload is the concatenation of
    the surviving fragments in that order.  No list of missing ids is
    returned. *)
Theorem C3_partial_retrieval self disk (F i : nat) :
  1 ≤ length self.(node_paths) →
  length self.(kms).(dataset_checksum) = 32 →
  (∀ j, j < F → readable self disk j) →
  i < F →
  (∀ r, r < self.(replication_factor) →
        ∃ why, probe_replica self disk i r = Ok (Continue why)) →
  ∃ fragments,
    retrieve_fragments self F disk = Ok fragments
    ∧ (i ∉ fragments.*1)
    ∧ (∀ j d, (j, d) ∈ fragments ↔
              j < F ∧ retrieve_fragment self disk j = Ok (Some d))
    ∧ StronglySorted (λ a b, a.1 < b.1) fragments
    ∧ retrieve self F disk = Ok (concat fragments.*2).
Proof.
  intros HM HH Hread Hi Hlost.
  assert (self.(node_paths) ≠ []) as Hnodes
    by (destruct self.(node_paths); simpl in *; [lia|done]).
  destruct (retrieve_fragments_total self disk F) as (retrieved & Hg & Hr);
    [done|lia|done|].
  exists (recovered_of (seq 0 F) retrieved).
  assert (∀ j d, (j, d) ∈ recovered_of (seq 0 F) retrieved ↔
                 j < F ∧ retrieve_fragment self disk j = Ok (Some d)) as Hmem.
  { intros j d. rewrite elem_of_recovered_of. split.
    - intros (k & Hk & Hrk). apply lookup_seq in Hk as [-> Hk]. simpl.
      destruct (gather_lookup _ _ _ k k Hg) as (b & Hb & Hf);
        [by apply lookup_seq|].
      split; [done|]. congruence.
    - intros [Hj Hf]. exists j. split; [by apply lookup_seq|].
      destruct (gather_lookup _ _ _ j j Hg) as (b & Hb & Hf');
        [by apply lookup_seq|].
      congruence. }
  split_and!; [done| |done| |].
  - intros ([j d] & -> & Hin)%list_elem_of_fmap. simpl in *.
    apply Hmem in Hin as [_ Hrec].
    unfold retrieve_fragment in Hrec.
    rewrite retrieve_fragment_loop_all_rejected in Hrec; [done|].
    intros r Hr'. apply Hlost. unfold Py.range2 in Hr'.
    apply elem_of_seq in Hr'. lia.
  - apply recovered_of_seq_ascending.
  - unfold retrieve. rewrite Hr, bind_ok.
    by rewrite parallel_reassemble_ascending
      by apply recovered_of_seq_ascending.
Qed.

End recovery_claims.

Lemma C9_replica_errors_recovered_witness :
  ∃ fragments,
    retrieve_fragments (lib := Toy.lib) Toy.line 2 (Toy.lose 0 Toy.stored)
    = Ok fragments.
Proof.
  apply (C9_replica_errors_recovered (lib := Toy.lib)
           (CryptoLibLaws0 := toy_laws) Toy.line (Toy.lose 0 Toy.stored) 2).
  - vm_compute. lia.
  - vm_compute. reflexivity.
  - intros j Hj r path Hr Hp.
    assert (j = 0 ∨ j = 1) as [-> | ->] by lia;
      (assert (r = 0 ∨ r = 1) as [-> | ->] by (vm_compute in Hr; lia));
      vm_compute in Hp; injection Hp as <-; vm_compute; congruence.
Defined.

Lemma C3_partial_retrieval_witness :
  ∃ fragments,
    retrieve_fragments (lib := Toy.lib) Toy.line 2 (Toy.lose 0 Toy.stored)
    = Ok fragments
    ∧ (0 ∉ fragments.*1)
    ∧ retrieve (lib := Toy.lib) Toy.line 2 (Toy.lose 0 Toy.stored)
      = Ok (concat fragments.*2).
Proof.
  destruct (C3_partial_retrieval (lib := Toy.lib) (CryptoLibLaws0 := toy_laws)
              Toy.line (Toy.lose 0 Toy.stored) 2 0)
    as (fragments & Hr & Hi & _ & _ & Hre).
  - vm_compute. lia.
  - vm_compute. reflexivity.
  - intros j Hj r path Hr Hp.
    assert (j = 0 ∨ j = 1) as [-> | ->] by lia;
      (assert (r = 0 ∨ r = 1) as [-> | ->] by (vm_compute in Hr; lia));
      vm_compute in Hp; injection Hp as <-; vm_compute; congruence.
  - lia.
  - intros r Hr.
    assert (r = 0 ∨ r = 1) as [-> | ->] by (vm_compute in Hr; lia);
      exists replica_missing; vm_compute; reflexivity.
  - exists fragments. split_and!; done.
Defined.

(** * Further properties of the code *)

(** ** Splitting and sizing *)

Lemma window_count (n size j : nat) :
  size ≠ 0 → j < (n + (size - 1)) `div` size ↔ j * size < n.
Proof.
  intros Hs. split.
  - intros Hj. destruct (decide (j * size < n)) as [|Hge]; [done|].
    assert ((n + (size - 1)) `div` size < S j); [|lia].
    apply Nat.Div0.div_lt_upper_bound. lia.
  - intros Hj. assert (S j ≤ (n + (size - 1)) `div` size); [|lia].
    apply Nat.div_le_lower_bound; [done|]. lia.
Qed.

Lemma fragments_of_lookup (size : nat) (data : bytes) j f :
  size ≠ 0 → fragments_of size data !! j = Some f →
  j * size < length data ∧ f = take size (drop (j * size) data).
Proof.
  intros Hs. unfold fragments_of. rewrite list_lookup_fmap.
  intros Hj. apply fmap_Some in Hj as (k & Hk & ->).
  apply lookup_seq in Hk as [-> Hk]. simpl in *.
  split; [|done]. by apply window_count in Hk.
Qed.

Lemma fragment_data_fragments_of (self : AssemblyLine)
    (data : bytes) (fragment_size' : option nat) :
  let size := default self.(fragment_size) fragment_size' in
  size ≠ 0 →
  fragment_data self data fragment_size' = Ok (fragments_of size data)
  ∧ length (fragments_of size data) = (length data + (size - 1)) `div` size
  ∧ concat (fragments_of size data) = data.
Proof.
  intros size Hs.
  assert (length (fragments_of size data) = (length data + (size - 1)) `div` size)
    as Hlen by (unfold fragments_of; by rewrite length_fmap, length_seq).
  split_and!; [|done|].
  - unfold fragment_data. fold size.
    destruct (range3_windows (length data) size Hs) as (m & Hm & Hr).
    assert (m = (length data + (size - 1)) `div` size) as ->.
    { unfold Py.range3 in Hr. case_decide; [done|]. simplify_eq.
      apply (f_equal length) in Hr. rewrite !length_fmap, !length_seq in Hr.
      by rewrite Nat.sub_0_r in Hr. }
    rewrite Hr, bind_ok. unfold fragments_of. f_equal.
    rewrite <-list_fmap_compose. apply list_fmap_ext.
    intros _ j _. simpl. apply slice_window.
  - unfold fragments_of. apply windows_concat; [done|].
    pose proof (Nat.div_mod (length data + (size - 1)) size Hs).
    pose proof (Nat.mod_upper_bound (length data + (size - 1)) size Hs). nia.
Qed.

Section splitting.
Context {lib : CryptoLib}.

(** X1: [fragment_data] with a fragment size of at least one (the argument
    or, for [None], the one of the pipeline) cuts the data into
    [ceil(N / S)] fragments whose concatenation is the data; no fragment is
    empty, none is longer than [S], and every fragment but the last has
    exactly [S] bytes.  Empty data gives no fragment at all. *)
Theorem X1_fragment_data_shape (self : AssemblyLine) (data : bytes)
    (fragment_size' : option nat) :
  let size := default self.(fragment_size) fragment_size' in
  1 ≤ size →
  ∃ fragments,
    fragment_data self data fragment_size' = Ok fragments
    ∧ length fragments = (length data + (size - 1)) `div` size
    ∧ concat fragments = data
    ∧ (∀ j f, fragments !! j = Some f →
              1 ≤ length f ≤ size
              ∧ (S j < length fragments → length f = size))
    ∧ (fragments = [] ↔ data = []).
Proof.
  intros size Hsize. exists (fragments_of size data).
  assert (size ≠ 0) as Hs by lia.
  destruct (fragment_data_fragments_of self data fragment_size' Hs)
    as (Hfd & Hlen & Hcat).
  fold size in Hfd, Hlen, Hcat.
  split_and!; [done..| |].
  - intros j f Hf. destruct (fragments_of_lookup size data j f Hs Hf) as [Hj ->].
    rewrite length_take, length_drop. split; [lia|].
    rewrite Hlen. intros Hnext%window_count; [|done]. simpl in Hnext. lia.
  - split.
    + intros Hnil. apply (f_equal length) in Hnil. rewrite Hlen in Hnil.
      simpl in Hnil. apply length_zero_iff_nil.
      destruct (decide (length data = 0)) as [|Hne]; [done|].
      assert (0 < (length data + (size - 1)) `div` size); [|lia].
      apply window_count; [done|lia].
    + intros ->. unfold fragments_of. simpl.
      rewrite Nat.div_small by lia. done.
Qed.

(** X2: the splitter under the size the sizer picks, as the benchmark
    pairs them.  For an empty payload the sizer returns 0 and
    [fragment_data] raises [ValueError]; a payload of 1 to 102400 bytes is
    kept as one fragment; a longer one is cut into at least three. *)
Theorem X2_split_at_optimal_size (self : AssemblyLine) (data : bytes) :
  self.(fragment_size)
  = Z.to_nat (optimal_fragment_size (Z.of_nat (length data))) →
  (data = [] → fragment_data self data None = Raise ValueError)
  ∧ ((1 ≤ Z.of_nat (length data) ≤ 102400)%Z →
     fragment_data self data None = Ok [data])
  ∧ ((102400 < Z.of_nat (length data))%Z →
     ∃ fragments,
       fragment_data self data None = Ok fragments
       ∧ 3 ≤ length fragments
       ∧ concat fragments = data).
Proof.
  intros Hsize. rewrite optimal_fragment_size_cases in Hsize. split_and!.
  - intros ->. unfold fragment_data. simpl in *. rewrite Hsize. done.
  - intros Hn. case_decide; [|lia]. rewrite Nat2Z.id in Hsize.
    destruct (fragment_data_fragments_of self data None)
      as (Hfd & Hlen & Hcat); [simpl; lia|].
    simpl in Hfd, Hlen, Hcat. rewrite Hfd. f_equal.
    remember (fragments_of self.(fragment_size) data) as fs eqn:Hfs.
    assert (length fs = 1) as Hone.
    { rewrite Hlen, Hsize. apply Nat.le_antisymm.
      - assert ((length data + (length data - 1)) `div` length data < 2); [|lia].
        apply Nat.Div0.div_lt_upper_bound. lia.
      - apply Nat.div_le_lower_bound; lia. }
    destruct fs as [|f [|??]]; simplify_eq/=. by rewrite app_nil_r.
  - intros Hn.
    assert (self.(fragment_size) ≠ 0
            ∧ 2 * self.(fragment_size) < length data) as [Hs Hthree].
    { rewrite Hsize. repeat case_decide; lia. }
    destruct (fragment_data_fragments_of self data None)
      as (Hfd & Hlen & Hcat); [done|].
    simpl in Hfd, Hlen, Hcat. eexists. split_and!; [done| |done].
    rewrite Hlen.
    assert (2 < (length data + (self.(fragment_size) - 1))
                  `div` self.(fragment_size)); [|lia].
    apply window_count; [done|lia].
Qed.

End splitting.

Lemma X1_fragment_data_shape_witness :
  fragment_data Toy.line [x01; x02; x03; x04; x05] (Some 2)
  = Ok [[x01; x02]; [x03; x04]; [x05]].
Proof.
  destruct (X1_fragment_data_shape Toy.line
              [x01; x02; x03; x04; x05] (Some 2))
    as (fragments & Hfd & _); [simpl; lia|].
  rewrite Hfd. vm_compute in Hfd. injection Hfd as <-. reflexivity.
Defined.

Lemma X2_split_at_optimal_size_witness :
  fragment_data (new_AssemblyLine Toy.nodes [] 0 2) [] None
  = Raise ValueError
  ∧ fragment_data (new_AssemblyLine Toy.nodes [] 3 2)
      Toy.payload None = Ok [Toy.payload].
Proof.
  split.
  - apply (X2_split_at_optimal_size
             (new_AssemblyLine Toy.nodes [] 0 2) []); reflexivity.
  - apply (X2_split_at_optimal_size
             (new_AssemblyLine Toy.nodes [] 3 2) Toy.payload);
      [reflexivity|simpl; lia].
Defined.

(** X3: with at least one CPU, [dynamic_concurrency] stays between 2 and
    150 whatever the sizes: it is between 5 and 12 for data of up to
    102400 bytes, [min(50, 2 * cpu)] up to 10240000 bytes, and three times
    that beyond, so the cap of 300 of the last branch never applies.  The
    fragment size has no influence. *)
Theorem X3_dynamic_concurrency_bounds (cpu_count dataset_size : Z)
    (fragment_size1 fragment_size2 : Z) :
  (1 ≤ cpu_count)%Z →
  let c := dynamic_concurrency cpu_count dataset_size fragment_size1 in
  (2 ≤ c ≤ 150)%Z
  ∧ ((dataset_size ≤ 102400)%Z → (5 ≤ c ≤ 12)%Z)
  ∧ ((102400 < dataset_size ≤ 10240000)%Z → c = Z.min 50 (cpu_count * 2))
  ∧ ((10240000 < dataset_size)%Z → c = (3 * Z.min 50 (cpu_count * 2))%Z)
  ∧ c = dynamic_concurrency cpu_count dataset_size fragment_size2.
Proof.
  intros Hcpu c. unfold c, dynamic_concurrency.
  repeat match goal with
    | |- context [(?a <=? ?b)%Z] => destruct (Z.leb_spec a b)
    end;
    split_and!; try done; intros;
    try (pose proof (Z.div_mod (Z.min 50 (cpu_count * 2)) 4);
         pose proof (Z.mod_pos_bound (Z.min 50 (cpu_count * 2)) 4));
    lia.
Qed.

Lemma X3_dynamic_concurrency_bounds_witness :
  dynamic_concurrency 8 (1024 * 100000) 204800 = 48%Z.
Proof.
  destruct (X3_dynamic_concurrency_bounds 8 (1024 * 100000) 204800 0)
    as (_ & _ & _ & Hbig & _); [lia|].
  rewrite Hbig by lia. reflexivity.
Defined.

(** ** Paths and seeds *)

(** X4: the blob path of a replica.  [_store_fragment] and the replica loop
    raise [ZeroDivisionError] on an empty node list and otherwise always
    find a node (the index is never out of range); two replicas share a
    path only if they are the same replica of the same fragment, also when
    nodes repeat or there are more replicas than nodes. *)
Theorem X4_blob_paths (self : AssemblyLine) (i r : nat) :
  (self.(node_paths) = [] → store_path self i r = Raise ZeroDivisionError)
  ∧ (self.(node_paths) ≠ [] → ∃ path, store_path self i r = Ok path)
  ∧ probe_path self i r = store_path self i r
  ∧ (∀ i' r' path,
       store_path self i r = Ok path → store_path self i' r' = Ok path →
       i = i' ∧ r = r').
Proof.
  split_and!.
  - intros Hnil. unfold store_path, Py.mod_. rewrite Hnil. done.
  - intros Hnodes. destruct (store_path_ok self i r Hnodes) as (? & _ & ->).
    by eexists.
  - done.
  - intros i' r' path. apply store_path_inj.
Qed.

(** X5: for one checksum, distinct (fragment, replica) pairs give distinct
    seeds, so no two replicas of a payload hand the same key material to
    the key derivation. *)
Theorem X5_key_seed_unique (kms : KeyManagementSystem) (i r i' r' : nat) :
  i ≠ i' ∨ r ≠ r' → key_seed kms i r ≠ key_seed kms i' r'.
Proof.
  intros Hne Heq. unfold key_seed, Py.encode in Heq.
  apply (f_equal string_of_list_byte) in Heq.
  rewrite !string_of_list_byte_of_string in Heq.
  apply (digits_then_other _ _ ":" ":") in Heq as [Hi Heq];
    [|apply str_int_digits..|done|done].
  apply str_int_inj in Hi as ->.
  apply (inj (String.app (":" +:+ Py.repr_bytes kms.(dataset_checksum)))) in Heq.
  injection Heq as Hr. apply str_int_inj in Hr.
  destruct Hne; congruence.
Qed.

Lemma X5_key_seed_unique_witness :
  key_seed Toy.line.(kms) 0 0 ≠ key_seed Toy.line.(kms) 0 1.
Proof. apply X5_key_seed_unique. right. lia. Defined.

(** ** The tuples of the write path *)

Lemma concat_imap_uniform {A B} (f : nat → A → list B) (l : list A) (n : nat) :
  (∀ i x, length (f i x) = n) →
  length (concat (imap f l)) = length l * n
  ∧ ∀ i x k, l !! i = Some x → k < n →
             concat (imap f l) !! (i * n + k) = f i x !! k.
Proof.
  revert f. induction l as [|x0 l IH]; intros f Hf.
  - split; [done|]. intros i x k Hi. by rewrite lookup_nil in Hi.
  - rewrite imap_cons. simpl concat.
    destruct (IH (f ∘ S)) as [IHlen IHlook]; [intros; apply Hf|].
    split.
    + rewrite length_app, IHlen, Hf. simpl. lia.
    + intros [|i] x k Hi Hk; simpl in Hi.
      * simplify_eq. simpl. apply lookup_app_l. rewrite Hf. lia.
      * rewrite lookup_app_r by (rewrite Hf; simpl; lia).
        rewrite Hf. replace (S i * n + k - n) with (i * n + k) by (simpl; lia).
        by rewrite (IHlook i x k).
Qed.

Lemma writes_monotone `{CryptoLib} (self : AssemblyLine)
    (items : list encrypted) (disk disk' : filesystem) :
  for_each (_store_fragment self) items disk = Ok disk' →
  ∀ path,
    (is_Some (disk !! path) → is_Some (disk' !! path))
    ∧ (disk' !! path = Some Directory → disk !! path = Some Directory).
Proof.
  revert disk. induction items as [|item items IH]; intros disk; simpl.
  - intros [= <-]. done.
  - destruct (_store_fragment self item disk) as [disk1|] eqn:Hw; [|done].
    rewrite bind_ok. intros Hrun path.
    destruct (IH disk1 Hrun path) as [IHsome IHdir].
    apply _store_fragment_inv in Hw as (p & _ & _ & ->).
    split.
    + intros Hsome. apply IHsome. rewrite lookup_insert.
      case_decide; [eauto|done].
    + intros Hdir. apply IHdir in Hdir. rewrite lookup_insert in Hdir.
      by case_decide.
Qed.

Section write_properties.
Context {lib : CryptoLib} `{!CryptoLibLaws lib}.
Implicit Types (self : AssemblyLine) (disk : filesystem).

(** X6: on the replicated path [encrypt_fragments] returns one tuple per
    fragment and replica, [F * R] in all, grouped by fragment with the
    replicas in ascending order: the tuple at index [i * R + r] is the one
    [encrypt_fragment_sync] computes for fragment [i], replica [r] from
    the compressed fragment, and it carries these two ids.  (32-byte
    checksum assumed, so that the cipher accepts the nonce.) *)
Theorem X6_encrypt_fragments_layout self (fragments : list bytes) :
  length self.(kms).(dataset_checksum) = 32 →
  ∃ items,
    encrypt_fragments self fragments false = Ok items
    ∧ length items = length fragments * self.(replication_factor)
    ∧ ∀ i fragment r,
        fragments !! i = Some fragment → r < self.(replication_factor) →
        ∃ item,
          items !! (i * self.(replication_factor) + r) = Some item
          ∧ encrypt_fragment_sync
              (i, compress_data fragment, self.(kms).(dataset_checksum), r)
            = Ok item
          ∧ item.1.1.1.1 = i ∧ item.1.1.1.2 = r.
Proof.
  intros HH. exists (replicas_of self fragments).
  destruct (concat_imap_uniform
              (λ i fragment,
                 (λ replica, sealed self.(kms) i replica (compress_data fragment))
                   <$> seq 0 self.(replication_factor))
              fragments self.(replication_factor)) as [Hlen Hlook].
  { intros. by rewrite length_fmap, length_seq. }
  split_and!.
  - rewrite encrypt_fragments_ok by lia. done.
  - done.
  - intros i f r Hf Hr. exists (sealed self.(kms) i r (compress_data f)).
    split_and!; [|rewrite encrypt_fragment_sync_ok by lia;
                  by destruct self.(kms)|done..].
    unfold replicas_of. rewrite (Hlook i f r Hf Hr).
    rewrite list_lookup_fmap, lookup_seq_lt by done. done.
Qed.


(** X8: what [store] leaves alone.  A path that is not the blob path of a
    fragment below [F] and a replica below [R] holds after a successful
    [store] what it held before; no existing file disappears and no
    directory is created. *)
Theorem X8_store_frame self (data : bytes) (inline : bool) disk F disk' :
  1 ≤ self.(replication_factor) →
  1 ≤ self.(fragment_size) →
  length self.(kms).(dataset_checksum) = 32 →
  store self data inline disk = Ok (F, disk') →
  (∀ path,
     (∀ i r, i < F → r < self.(replication_factor) →
             store_path self i r ≠ Ok path) →
     disk' !! path = disk !! path)
  ∧ (∀ path, is_Some (disk !! path) → is_Some (disk' !! path))
  ∧ (∀ path, disk' !! path = Some Directory → disk !! path = Some Directory).
Proof.
  intros HR HS HH. unfold store.
  destruct (fragment_data_ok self data) as [-> _]; [lia|].
  rewrite bind_ok, encrypt_fragments_ok, bind_ok, store_fragments_eq by lia.
  set (fragments := fragments_of self.(fragment_size) data).
  destruct (for_each _ _ disk) as [disk1|] eqn:Hrun; [|done].
  rewrite bind_ok. intros [= <- <-].
  split_and!.
  - intros path Hout.
    eapply writes_in_place; [|done|].
    + intros a b (ia & fa & ra & Hfa & ->)%stored_items_sealed
                 (ib & fb & rb & Hfb & ->)%stored_items_sealed.
      simpl. intros <- <-. congruence.
    + intros item Hitem. unfold stored_items in Hitem.
      destruct (inline && bool_decide (length fragments = 1)) eqn:Hfast.
      * apply andb_true_iff in Hfast as [_ Hone%bool_decide_eq_true].
        destruct fragments as [|f [|??]] eqn:Hfr; simplify_eq/=.
        apply list_elem_of_singleton in Hitem as ->. apply Hout; simpl; lia.
      * apply elem_of_replicas_of in Hitem as (i & f & r & Hf & Hr & ->).
        apply Hout; [|done]. by apply lookup_lt_Some in Hf.
  - intros path. by apply (writes_monotone self _ disk disk1 Hrun path).
  - intros path. by apply (writes_monotone self _ disk disk1 Hrun path).
Qed.

(** X9: the empty payload.  With a replication factor and a fragment size
    of at least one, [store] of no bytes reports zero fragments and returns
    the disk as it was, for any node list (an empty one too) and any
    checksum; retrieval of zero fragments reads nothing and returns no
    bytes. *)
Theorem X9_empty_payload self (inline : bool) disk :
  1 ≤ self.(replication_factor) →
  1 ≤ self.(fragment_size) →
  store self [] inline disk = Ok (0, disk)
  ∧ retrieve_fragments self 0 disk = Ok []
  ∧ retrieve self 0 disk = Ok [].
Proof.
  intros HR HS. split_and!.
  - unfold store.
    destruct (fragment_data_ok self []) as [-> _]; [lia|].
    assert (fragments_of self.(fragment_size) [] = []) as ->.
    { unfold fragments_of. simpl. by rewrite Nat.div_small by lia. }
    rewrite bind_ok. unfold encrypt_fragments. rewrite andb_false_r.
    simpl gather. rewrite bind_ok, store_fragments_eq by lia. done.
  - by rewrite retrieve_fragments_eq.
  - unfold retrieve. by rewrite retrieve_fragments_eq.
Qed.

End write_properties.

(** ** Reading back what was stored *)

Lemma elem_unique_by_fst {A} (l : list (nat * A)) (x y : nat * A) :
  NoDup l.*1 → x ∈ l → y ∈ l → x.1 = y.1 → x = y.
Proof.
  intros Hnd Hx Hy Heq.
  apply list_elem_of_lookup in Hx as [i Hi].
  apply list_elem_of_lookup in Hy as [j Hj].
  assert (i = j) as ->; [|congruence].
  eapply (NoDup_lookup _ i j x.1 Hnd); rewrite list_lookup_fmap.
  - by rewrite Hi.
  - rewrite Hj. simpl. by rewrite Heq.
Qed.

Lemma insert_by_perm {A} (key : A → nat) (x : A) (l : list A) :
  Py.insert_by key x l ≡ₚ x :: l.
Proof.
  induction l as [|y l IH]; simpl; [done|].
  case_decide; [done|]. rewrite IH. apply Permutation_swap.
Qed.

Lemma sorted_perm {A} (key : A → nat) (l : list A) : Py.sorted key l ≡ₚ l.
Proof.
  unfold Py.sorted. induction l as [|x l IH]; simpl; [done|].
  by rewrite insert_by_perm, IH.
Qed.

Lemma insert_by_sorted {A} (key : A → nat) (x : A) (l : list A) :
  StronglySorted (λ a b, key a ≤ key b) l →
  StronglySorted (λ a b, key a ≤ key b) (Py.insert_by key x l).
Proof.
  induction 1 as [|y l Hl IH Hy]; simpl; [repeat constructor|].
  case_decide.
  - constructor; [by constructor|]. constructor; [done|].
    eapply Forall_impl; [done|]. simpl. lia.
  - constructor; [done|]. rewrite insert_by_perm.
    constructor; [lia|done].
Qed.

Lemma sorted_sorted {A} (key : A → nat) (l : list A) :
  StronglySorted (λ a b, key a ≤ key b) (Py.sorted key l).
Proof.
  unfold Py.sorted. induction l as [|x l IH]; simpl; [constructor|].
  by apply insert_by_sorted.
Qed.

Lemma recovered_of_length (ids : list nat) (retrieved : list (option bytes)) :
  length (recovered_of ids retrieved) ≤ length ids.
Proof.
  unfold recovered_of. revert retrieved.
  induction ids as [|i ids IH]; intros [|[d|] rs]; simpl; try lia.
  - apply le_n_S, IH.
  - etrans; [apply IH|lia].
Qed.

Section read_properties.
Context {lib : CryptoLib} `{!CryptoLibLaws lib}.
Implicit Types (self : AssemblyLine) (disk : filesystem).

Lemma retrieve_fragment_loop_fallback self disk (i : nat) (f : bytes)
    (replicas : list nat) :
  (∀ r, r ∈ replicas →
        probe_replica self disk i r = Ok (Return f)
        ∨ ∃ why, probe_replica self disk i r = Ok (Continue why)) →
  (∃ r, r ∈ replicas ∧ probe_replica self disk i r = Ok (Return f)) →
  retrieve_fragment_loop self disk i replicas = Ok (Some f).
Proof.
  induction replicas as [|r rest IH]; intros Hall (r0 & Hr0 & Hgood).
  - by apply elem_of_nil in Hr0.
  - cbn [retrieve_fragment_loop].
    destruct (Hall r) as [Hret|[why Hrej]]; [by left|by rewrite Hret|].
    rewrite Hrej, bind_ok. apply IH.
    + intros r' Hr'. apply Hall. by right.
    + apply elem_of_cons in Hr0 as [->|Hr0]; [congruence|eauto].
Qed.

(** X10: after a store on the replicated path every replica of every
    fragment decodes, under its own key, to its fragment: each blob alone
    is enough to recover the fragment it belongs to. *)
Theorem X10_each_replica_decodes self (data : bytes) disk F disk'
    (fragments : list bytes) (i r : nat) (fragment : bytes) :
  1 ≤ self.(replication_factor) →
  1 ≤ length self.(node_paths) →
  1 ≤ self.(fragment_size) →
  length self.(kms).(dataset_checksum) = 32 →
  store self data false disk = Ok (F, disk') →
  fragment_data self data None = Ok fragments →
  fragments !! i = Some fragment →
  r < self.(replication_factor) →
  probe_replica self disk' i r = Ok (Return fragment).
Proof.
  intros HR HM HS HH Hstore Hfd Hf Hr.
  assert (self.(node_paths) ≠ []) as Hnodes
    by (destruct self.(node_paths); simpl in *; [lia|done]).
  destruct (fragment_data_fragments_of self data None) as (Hfd' & _);
    [simpl; lia|].
  rewrite Hfd in Hfd'. simpl in Hfd'. simplify_eq.
  apply store_in_place in Hstore as [_ Hplace]; [|lia..].
  destruct (store_path_ok self i r Hnodes) as (node & _ & Hp).
  erewrite probe_replica_regular; [|lia|done|].
  - by rewrite blob_verdict_sealed by lia.
  - apply (Hplace (sealed self.(kms) i r (compress_data fragment))); [|done].
    by apply stored_items_replica.
Qed.

(** X11: replica fallback.  After a store on the replicated path, let the
    disk change in any way that leaves every replica either as stored or
    rejected by the replica loop (a deleted file is), with at least one
    replica of each fragment as stored.  Retrieval then still returns
    exactly the payload. *)
Theorem X11_replica_fallback self (data : bytes) disk F disk' disk2 :
  1 ≤ self.(replication_factor) →
  1 ≤ length self.(node_paths) →
  1 ≤ self.(fragment_size) →
  length self.(kms).(dataset_checksum) = 32 →
  store self data false disk = Ok (F, disk') →
  (∀ i r path,
     i < F → r < self.(replication_factor) →
     store_path self i r = Ok path →
     disk2 !! path = disk' !! path
     ∨ ∃ why, probe_replica self disk2 i r = Ok (Continue why)) →
  (∀ i, i < F →
        ∃ r path, r < self.(replication_factor)
                  ∧ store_path self i r = Ok path
                  ∧ disk2 !! path = disk' !! path) →
  retrieve self F disk2 = Ok data.
Proof.
  intros HR HM HS HH Hstore Hrep Hone.
  assert (self.(node_paths) ≠ []) as Hnodes
    by (destruct self.(node_paths); simpl in *; [lia|done]).
  apply store_in_place in Hstore as [-> Hplace]; [|lia..].
  set (fragments := fragments_of self.(fragment_size) data) in *.
  destruct (fragment_data_ok self data) as [_ Hcat]; [lia|].
  fold fragments in Hcat.
  assert (∀ i r f path,
            fragments !! i = Some f → r < self.(replication_factor) →
            store_path self i r = Ok path →
            disk2 !! path = disk' !! path →
            probe_replica self disk2 i r = Ok (Return f)) as Hintact.
  { intros i r f path Hf Hr Hp Hsame.
    erewrite probe_replica_regular; [|lia|done|].
    - by rewrite blob_verdict_sealed by lia.
    - rewrite Hsame.
      apply (Hplace (sealed self.(kms) i r (compress_data f))); [|done].
      by apply stored_items_replica. }
  unfold retrieve. rewrite retrieve_fragments_eq.
  rewrite <-(length_fmap Some fragments).
  rewrite (gather_indexed _ (Some <$> fragments) 0).
  - rewrite bind_ok, length_fmap, bind_ok. f_equal.
    rewrite parallel_reassemble_ascending
      by apply recovered_of_seq_ascending.
    by rewrite recovered_of_all.
  - intros j o Hj. apply list_lookup_fmap_Some in Hj as (f & -> & Hf). simpl.
    pose proof (lookup_lt_Some _ _ _ Hf) as Hlt.
    apply retrieve_fragment_loop_fallback.
    + intros r Hr. unfold Py.range2 in Hr. apply elem_of_seq in Hr.
      destruct (store_path_ok self j r Hnodes) as (node & _ & Hp).
      destruct (Hrep j r _ Hlt ltac:(lia) Hp) as [Hsame|Hrej]; [|by right].
      left. eapply Hintact; [done|lia|done..].
    + destruct (Hone j Hlt) as (r & path & Hr & Hp & Hsame).
      exists r. split; [|by eapply Hintact].
      unfold Py.range2. apply elem_of_seq. lia.
Qed.

(** X12: the batches of [retrieve_fragments] (10, 25 or 50 ids) neither
    drop nor repeat an id: the result is that of probing the fragments
    [0 .. F-1] one after the other.  Whenever it returns, it returns at
    most [F] pairs, with strictly ascending ids below [F], each with the
    fragment the replica loop recovers for that id. *)
Theorem X12_retrieve_fragments_batches self (F : nat) disk :
  retrieve_fragments self F disk
  = (let* retrieved := gather (retrieve_fragment self disk) (seq 0 F) in
     Ok (recovered_of (seq 0 F) retrieved))
  ∧ ∀ fragments,
      retrieve_fragments self F disk = Ok fragments →
      length fragments ≤ F
      ∧ StronglySorted (λ a b, a.1 < b.1) fragments
      ∧ ∀ j d, (j, d) ∈ fragments →
               j < F ∧ retrieve_fragment self disk j = Ok (Some d).
Proof.
  split; [apply retrieve_fragments_eq|].
  intros fragments. rewrite retrieve_fragments_eq.
  destruct (gather _ (seq 0 F)) as [retrieved|] eqn:Hg; [|done].
  rewrite bind_ok. intros [= <-]. split_and!.
  - pose proof (recovered_of_length (seq 0 F) retrieved) as Hle.
    by rewrite length_seq in Hle.
  - apply recovered_of_seq_ascending.
  - intros j d (k & Hk & Hrk)%elem_of_recovered_of.
    apply lookup_seq in Hk as [-> Hk]. simpl.
    destruct (gather_lookup _ _ _ k k Hg) as (b & Hb & Hf);
      [by apply lookup_seq|].
    split; [done|congruence].
Qed.

(** X13: [parallel_reassemble] does not depend on the order in which the
    recovered fragments arrive: for pairs with distinct ids, any
    rearrangement of the list gives the same bytes, the fragments
    concatenated by ascending id.  The empty list gives no bytes. *)
Theorem X13_reassemble_any_order (fragments fragments' : list (nat * bytes)) :
  NoDup fragments.*1 →
  fragments ≡ₚ fragments' →
  parallel_reassemble fragments = parallel_reassemble fragments'
  ∧ parallel_reassemble fragments = concat (Py.sorted fst fragments).*2
  ∧ StronglySorted (λ a b, a.1 ≤ b.1) (Py.sorted fst fragments)
  ∧ Py.sorted fst fragments ≡ₚ fragments.
Proof.
  intros Hnd Hperm.
  assert (∀ l : list (nat * bytes),
            parallel_reassemble l = concat (Py.sorted fst l).*2) as Hre.
  { intros l. unfold parallel_reassemble. case_decide as Hnil; [|done].
    by rewrite Hnil. }
  split_and!; [|apply Hre|apply sorted_sorted|apply sorted_perm].
  rewrite !Hre. do 2 f_equal.
  apply (StronglySorted_unique_strong (λ a b : nat * bytes, a.1 ≤ b.1));
    [|apply sorted_sorted..|by rewrite !sorted_perm].
  intros x1 x2 Hx1 Hx2 H12 H21.
  rewrite sorted_perm in Hx1. rewrite sorted_perm, <-Hperm in Hx2.
  apply (elem_unique_by_fst fragments); [done..|lia].
Qed.

(** X14: [inline_process_small_dataset] seals the whole data as fragment 0,
    replica 0, whatever the replication factor and also for empty data;
    storing that one tuple and retrieving one fragment gives the data
    back. *)
Theorem X14_inline_process_round_trip self (data : bytes) disk :
  1 ≤ self.(replication_factor) →
  1 ≤ length self.(node_paths) →
  length self.(kms).(dataset_checksum) = 32 →
  (∀ path, store_path self 0 0 = Ok path → disk !! path ≠ Some Directory) →
  ∃ item disk',
    inline_process_small_dataset self data = Ok [item]
    ∧ item.1.1.1.1 = 0 ∧ item.1.1.1.2 = 0
    ∧ encrypt_fragments self [data] true = Ok [item]
    ∧ store_fragments self [item] disk = Ok disk'
    ∧ retrieve self 1 disk' = Ok data.
Proof.
  intros HR HM HH Hdir.
  assert (self.(node_paths) ≠ []) as Hnodes
    by (destruct self.(node_paths); simpl in *; [lia|done]).
  set (item := sealed self.(kms) 0 0 (compress_data data)).
  destruct (store_path_ok self 0 0 Hnodes) as (node & _ & Hp).
  exists item, (<[os_path.join node (blob_name 0 0) := Regular (blob_of item)]> disk).
  split_and!; [| done | done | | |].
  - unfold inline_process_small_dataset.
    by rewrite encrypt_fragment_sync_inline_ok by lia.
  - unfold encrypt_fragments. simpl.
    by rewrite encrypt_fragment_sync_inline_ok by lia.
  - rewrite store_fragments_eq by lia.
    change (for_each ?body [?x] disk) with (let* s := body x disk in Ok s).
    unfold _store_fragment, item, sealed. simpl. fold item.
    change (store_path self 0 0) with (store_path self 0 0).
    rewrite Hp, bind_ok. unfold fs.write. specialize (Hdir _ Hp).
    by destruct (disk !! _) as [[?|]|].
  - unfold retrieve. rewrite retrieve_fragments_eq.
    change (seq 0 1) with [0]. cbn [gather].
    rewrite (retrieve_fragment_stored self _ 0 data _ ltac:(lia) ltac:(lia) Hp)
      by apply lookup_insert_eq.
    rewrite !bind_ok. unfold recovered_of. simpl.
    unfold parallel_reassemble. simpl. by rewrite app_nil_r.
Qed.

End read_properties.

(** ** crystal_storage *)

Section managers.
Import crystal_storage.

Lemma route_path_inj (a a' : string) (n m : nat) :
  os_path.join a ("fragment_" +:+ Py.str_int n +:+ ".pkl")
  = os_path.join a' ("fragment_" +:+ Py.str_int m +:+ ".pkl") →
  n = m.
Proof.
  intros Heq.
  assert (∀ k, os_path.starts_with_sep
                 ("fragment_" +:+ Py.str_int k +:+ ".pkl") = false
               ∧ sep_free ("fragment_" +:+ Py.str_int k +:+ ".pkl") = true)
    as Hname.
  { intros k. split; [done|]. rewrite !sep_free_app.
    by rewrite (all_digits_sep_free (Py.str_int k)) by apply str_int_digits. }
  apply (f_equal basename) in Heq.
  rewrite !basename_join in Heq by apply Hname.
  apply (inj (String.app "fragment_")) in Heq.
  apply (digits_then_other _ _ "." ".") in Heq as [Hn _];
    [|apply str_int_digits..|done|done].
  by apply str_int_inj.
Qed.

Lemma route_inv (self : RoutingManager) (n : nat) :
  (self.(node_paths) = [] ∧ Py.mod_ n (length self.(node_paths))
                             = Raise ZeroDivisionError)
  ∨ ∃ node_path,
      ∀ B (k : string → result B),
        (let* j := Py.mod_ n (length self.(node_paths)) in
         let* node_path := Py.getitem self.(node_paths) j in
         k node_path)
        = k node_path.
Proof.
  destruct self.(node_paths) as [|p ps] eqn:Hnodes; [by left|right].
  destruct (lookup_lt_is_Some_2 (p :: ps) (n `mod` length (p :: ps)))
    as [node Hnode]; [apply Nat.mod_upper_bound; simpl; lia|].
  exists node. intros B k. unfold Py.mod_, Py.getitem.
  case_decide; [done|]. rewrite bind_ok, Hnode. done.
Qed.

(** X15: the fragmentation manager.  With a fragment size of zero
    [fragment_data] raises [ValueError]; otherwise it cuts the data into
    [ceil(N / size)] non-empty fragments of at most [size] bytes, and
    [merge_fragments] of them is the data again. *)
Theorem X15_fragmentation_manager (self : FragmentationManager)
    (data : bytes) :
  (self.(fragment_size) = 0 → fragment_data self data = Raise ValueError)
  ∧ (1 ≤ self.(fragment_size) →
     ∃ fragments,
       fragment_data self data = Ok fragments
       ∧ merge_fragments self fragments = data
       ∧ length fragments
         = (length data + (self.(fragment_size) - 1)) `div` self.(fragment_size)
       ∧ ∀ f, f ∈ fragments → 1 ≤ length f ≤ self.(fragment_size)).
Proof.
  split.
  - intros Hz. unfold fragment_data, Py.range3. rewrite Hz. done.
  - intros Hsize. set (size := self.(fragment_size)) in *.
    assert (size ≠ 0) as Hs by lia.
    exists (fragments_of size data).
    assert (length (fragments_of size data)
            = (length data + (size - 1)) `div` size) as Hlen
      by (unfold fragments_of; by rewrite length_fmap, length_seq).
    split_and!; [| |done|].
    + unfold fragment_data. fold size.
      destruct (range3_windows (length data) size Hs) as (m & Hm & Hr).
      assert (m = (length data + (size - 1)) `div` size) as ->.
      { unfold Py.range3 in Hr. case_decide; [done|]. simplify_eq.
        apply (f_equal length) in Hr. rewrite !length_fmap, !length_seq in Hr.
        by rewrite Nat.sub_0_r in Hr. }
      rewrite Hr, bind_ok. unfold fragments_of. f_equal.
      rewrite <-list_fmap_compose. apply list_fmap_ext.
      intros _ j _. simpl. apply slice_window.
    + unfold merge_fragments, fragments_of. apply windows_concat; [done|].
      pose proof (Nat.div_mod (length data + (size - 1)) size Hs).
      pose proof (Nat.mod_upper_bound (length data + (size - 1)) size Hs). nia.
    + intros f [j Hj]%list_elem_of_lookup.
      destruct (fragments_of_lookup size data j f Hs Hj) as [Hlt ->].
      rewrite length_take, length_drop. lia.
Qed.

(** X16: the routing manager.  With no node both operations raise
    [ZeroDivisionError].  After a successful [store_fragment] at an index,
    [retrieve_fragment] at that index returns the stored bytes, and at
    every other index it behaves as before the store; retrieving an index
    whose file does not exist raises [FileNotFoundError]. *)
Theorem X16_routing_manager (self : RoutingManager) (fragment : bytes)
    (n : nat) (disk : filesystem) :
  (self.(node_paths) = [] →
   store_fragment self fragment n disk = Raise ZeroDivisionError
   ∧ retrieve_fragment self n disk = Raise ZeroDivisionError)
  ∧ (∀ disk',
       store_fragment self fragment n disk = Ok disk' →
       retrieve_fragment self n disk' = Ok fragment
       ∧ ∀ m, m ≠ n →
              retrieve_fragment self m disk' = retrieve_fragment self m disk)
  ∧ (self.(node_paths) ≠ [] → disk = ∅ →
     retrieve_fragment self n disk = Raise FileNotFoundError).
Proof.
  split_and!.
  - intros Hnil. unfold store_fragment, retrieve_fragment, Py.mod_.
    rewrite Hnil. done.
  - intros disk' Hstore. unfold store_fragment, retrieve_fragment in *.
    destruct (route_inv self n) as [[_ Hraise]|[node Hnode]].
    { by rewrite Hraise in Hstore. }
    rewrite Hnode in Hstore. rewrite Hnode.
    unfold fs.write in Hstore. unfold fs.read.
    assert (disk' = <[os_path.join node
                        ("fragment_" +:+ Py.str_int n +:+ ".pkl")
                      := Regular fragment]> disk) as ->.
    { by destruct (disk !! _) as [[?|]|]; simplify_eq. }
    split; [by rewrite lookup_insert_eq|].
    intros m Hm.
    destruct (route_inv self m) as [[_ Hraise]|[node' Hnode']].
    { by rewrite Hraise. }
    rewrite !Hnode'. rewrite lookup_insert_ne; [done|].
    intros Heq%route_path_inj. done.
  - intros Hnodes ->. unfold retrieve_fragment.
    destruct (route_inv self n) as [[Hnil _]|[node Hnode]]; [done|].
    rewrite Hnode. unfold fs.read. by rewrite lookup_empty.
Qed.

End managers.

(** ** The further properties on concrete inputs *)

Lemma X6_encrypt_fragments_layout_witness :
  ∃ items,
    encrypt_fragments (lib := Toy.lib) Toy.line [[x01; x02]; [x03]] false
    = Ok items
    ∧ length items = 4.
Proof.
  destruct (X6_encrypt_fragments_layout (lib := Toy.lib)
              (CryptoLibLaws0 := toy_laws) Toy.line [[x01; x02]; [x03]])
    as (items & Henc & Hlen & _); [vm_compute; reflexivity|].
  exists items. split; [exact Henc|exact Hlen].
Defined.

Lemma X8_store_frame_witness :
  ∃ disk',
    store (lib := Toy.lib) Toy.line Toy.payload false
      {[ "data/node1/notes.txt" := Regular [x2a] ]} = Ok (2, disk')
    ∧ disk' !! "data/node1/notes.txt" = Some (Regular [x2a]).
Proof.
  destruct (store (lib := Toy.lib) Toy.line Toy.payload false
              {[ "data/node1/notes.txt" := Regular [x2a] ]})
    as [[F disk']|e] eqn:Hs; [|vm_compute in Hs; discriminate].
  assert (F = 2) as -> by (vm_compute in Hs; congruence).
  exists disk'. split; [reflexivity|].
  destruct (X8_store_frame (lib := Toy.lib) (CryptoLibLaws0 := toy_laws)
              Toy.line Toy.payload false
              {[ "data/node1/notes.txt" := Regular [x2a] ]} 2 disk')
    as (Hframe & _).
  - vm_compute. lia.
  - vm_compute. lia.
  - vm_compute. reflexivity.
  - exact Hs.
  - rewrite Hframe; [apply lookup_singleton_eq|].
    intros i r Hi Hr.
    assert (i = 0 ∨ i = 1) as [-> | ->] by lia;
      (assert (r = 0 ∨ r = 1) as [-> | ->] by (vm_compute in Hr; lia));
      vm_compute; congruence.
Defined.

Lemma X9_empty_payload_witness :
  store (lib := Toy.lib) Toy.line [] false Toy.stored = Ok (0, Toy.stored).
Proof.
  apply (X9_empty_payload (lib := Toy.lib) Toy.line false Toy.stored);
    vm_compute; lia.
Defined.

Lemma X10_each_replica_decodes_witness :
  probe_replica (lib := Toy.lib) Toy.line Toy.stored 0 1
  = Ok (Return [x01; x02]).
Proof.
  apply (X10_each_replica_decodes (lib := Toy.lib) (CryptoLibLaws0 := toy_laws)
           Toy.line Toy.payload ∅ 2 Toy.stored [[x01; x02]; [x03]]).
  - vm_compute. lia.
  - vm_compute. lia.
  - vm_compute. lia.
  - vm_compute. reflexivity.
  - vm_compute. reflexivity.
  - vm_compute. reflexivity.
  - reflexivity.
  - vm_compute. lia.
Defined.

Lemma X11_replica_fallback_witness :
  retrieve (lib := Toy.lib) Toy.line 2
    (delete "data/node1/fragment_0_replica_0.pkl" Toy.stored)
  = Ok Toy.payload.
Proof.
  apply (X11_replica_fallback (lib := Toy.lib) (CryptoLibLaws0 := toy_laws)
           Toy.line Toy.payload ∅ 2 Toy.stored).
  - vm_compute. lia.
  - vm_compute. lia.
  - vm_compute. lia.
  - vm_compute. reflexivity.
  - vm_compute. reflexivity.
  - intros i r path Hi Hr Hp.
    assert (i = 0 ∨ i = 1) as [-> | ->] by lia;
      (assert (r = 0 ∨ r = 1) as [-> | ->] by (vm_compute in Hr; lia));
      vm_compute in Hp; injection Hp as <-;
      first [ left; vm_compute; reflexivity
            | right; exists replica_missing; vm_compute; reflexivity ].
  - intros i Hi.
    assert (i = 0 ∨ i = 1) as [-> | ->] by lia.
    + exists 1, "data/node2/fragment_0_replica_1.pkl".
      split_and!; [vm_compute; lia|vm_compute; reflexivity..].
    + exists 0, "data/node3/fragment_1_replica_0.pkl".
      split_and!; [vm_compute; lia|vm_compute; reflexivity..].
Defined.

Lemma X13_reassemble_any_order_witness :
  parallel_reassemble [(1, [x03]); (0, [x01; x02])]
  = parallel_reassemble [(0, [x01; x02]); (1, [x03])].
Proof.
  apply (X13_reassemble_any_order [(1, [x03]); (0, [x01; x02])]
           [(0, [x01; x02]); (1, [x03])]).
  - simpl. apply NoDup_cons. split; [|apply NoDup_singleton].
    intros ?%list_elem_of_singleton. discriminate.
  - apply Permutation_swap.
Defined.

Lemma X14_inline_process_round_trip_witness :
  ∃ item disk',
    inline_process_small_dataset (lib := Toy.lib) Toy.line [] = Ok [item]
    ∧ store_fragments Toy.line [item] ∅ = Ok disk'
    ∧ retrieve (lib := Toy.lib) Toy.line 1 disk' = Ok [].
Proof.
  destruct (X14_inline_process_round_trip (lib := Toy.lib)
              (CryptoLibLaws0 := toy_laws) Toy.line [] ∅)
    as (item & disk' & Hin & _ & _ & _ & Hst & Hre).
  - vm_compute. lia.
  - vm_compute. lia.
  - vm_compute. reflexivity.
  - intros path _. by rewrite lookup_empty.
  - exists item, disk'. split_and!; [exact Hin|exact Hst|exact Hre].
Defined.
